(** * ai-song-writer: the section parser, the log sanitiser, the request
    defaults and the OAuth token cache of [main.go], embedded in Rocq.

    The repository ships three variants of the same service (direct API key,
    gateway with a hand-written OAuth client, gateway with the vendor SDK).
    [parseLyrics], [countWords] and the handler [generateLyrics] are textually
    identical in all of them; [sanitizeForLogging] exists in two different
    versions, kept apart below in the modules [Direct] and [Gateway].

    Further down come [countWords], [buildPrompt], [getValidOptions], the
    service [GenerateLyrics] of the direct variant (module [DirectAPI]) and
    the [OAuthTransport] of the SDK variant (module [Transport]). *)

From Stdlib Require Import ZArith Ascii Lia DecimalString.
From Stdlib Require QArith_base.
From stdpp Require Import base gmap strings list fin_maps.

Open Scope Z_scope.

(** ** The part of Go's [strings] package that the service calls

    A Go string is a sequence of bytes and so is a Rocq [string].  Every
    function below works on bytes exactly as the Go function does; the two
    functions whose Go implementation consults the Unicode tables
    ([strings.ToLower] and [strings.TrimSpace]) are the methods of the class
    [UnicodeTables], so that what is proved for every instance holds for Go's
    own tables too. *)

Definition newline : ascii := "010"%char.

(** The Go literal ["\n"]. *)
Definition nl : string := String newline "".

(** [strings.Split(s, sep)] for a separator of one byte. The result is never
    empty: a string without the separator is returned as its only element. *)
Fixpoint Split (s : string) (sep : ascii) : list string :=
  match s with
  | "" => [""]
  | String c rest =>
      if Ascii.eqb c sep then "" :: Split rest sep
      else match Split rest sep with
           | [] => [String c ""]
           | field :: fields => String c field :: fields
           end
  end.

(** [strings.Join(elems, sep)]. *)
Fixpoint Join (elems : list string) (sep : string) : string :=
  match elems with
  | [] => ""
  | [e] => e
  | e :: rest => e +:+ sep +:+ Join rest sep
  end.

(** [strings.HasPrefix(s, prefix)]. *)
Definition HasPrefix (s prefix : string) : bool := String.prefix prefix s.

(** [strings.HasSuffix(s, suffix)]. *)
Definition HasSuffix (s suffix : string) : bool :=
  String.prefix (String.rev suffix) (String.rev s).

Fixpoint skip (n : nat) (s : string) : string :=
  match n, s with
  | O, _ => s
  | S _, "" => ""
  | S m, String _ rest => skip m rest
  end.

(** [strings.TrimPrefix(s, prefix)]. *)
Definition TrimPrefix (s prefix : string) : string :=
  if HasPrefix s prefix then skip (String.length prefix) s else s.

(** [strings.Contains(s, substr)]. *)
Fixpoint Contains (s substr : string) : bool :=
  HasPrefix s substr ||
  match s with
  | "" => false
  | String _ rest => Contains rest substr
  end.

Fixpoint inCutset (c : ascii) (cutset : string) : bool :=
  match cutset with
  | "" => false
  | String d rest => Ascii.eqb c d || inCutset c rest
  end.

Fixpoint trimLeftFunc (f : ascii → bool) (s : string) : string :=
  match s with
  | "" => ""
  | String c rest => if f c then trimLeftFunc f rest else s
  end.

Definition trimFunc (f : ascii → bool) (s : string) : string :=
  String.rev (trimLeftFunc f (String.rev (trimLeftFunc f s))).

(** [strings.Trim(s, cutset)] for a cutset of ASCII bytes. *)
Definition Trim (s cutset : string) : string :=
  trimFunc (λ c, inCutset c cutset) s.

Class UnicodeTables := {
  (** [strings.ToLower]. *)
  ToLower : string → string;
  (** [strings.TrimSpace]. *)
  TrimSpace : string → string
}.

Definition lowerByte (c : ascii) : ascii :=
  let n := nat_of_ascii c in
  if (65 <=? n)%nat && (n <=? 90)%nat then ascii_of_nat (n + 32) else c.

Fixpoint asciiToLower (s : string) : string :=
  match s with
  | "" => ""
  | String c rest => String (lowerByte c) (asciiToLower rest)
  end.

(** What Go computes on a string of ASCII bytes: ['A'..'Z'] are mapped to
    ['a'..'z'], and tab, line feed, vertical tab, form feed, carriage return
    and space are the white space. *)
#[export] Instance asciiTables : UnicodeTables := {|
  ToLower := asciiToLower;
  TrimSpace := trimFunc Ascii.is_space
|}.

(** ** Data model *)

(** A Go [(T, error)] result. *)
Inductive result (E A : Type) : Type :=
  | ok (a : A)
  | err (e : E).
Arguments ok {E A} a.
Arguments err {E A} e.

Record SongStructure := {
  Verses : Z;
  Chorus : bool;
  Bridge : bool
}.

(** The field [Structure] of the Go struct is [Structure_] here, the name
    [Structure] being taken by the field of [GeneratedLyrics]. *)
Record LyricsRequest := {
  Keywords : list string;
  Genre : string;
  Emotion : string;
  Language : string;
  Structure_ : SongStructure
}.

Record GeneratedLyrics := {
  Title : string;
  Structure : gmap string string
}.

(** [CreatedAt] is an instant in nanoseconds. *)
Record LyricsMetadata := {
  MetaGenre : string;
  MetaEmotion : string;
  MetaLanguage : string;
  KeywordsUsed : list string;
  CreatedAt : Z;
  WordCount : Z
}.

Record LyricsResponse := {
  ID : string;
  Lyrics : GeneratedLyrics;
  Metadata : LyricsMetadata
}.

Record ErrorResponse := {
  Error : string;
  Message : string
}.

(** What the handler writes with [c.JSON(status, body)]. *)
Record reply := {
  status : Z;
  body : ErrorResponse + LyricsResponse
}.

(** ** [parseLyrics] *)

(** The local variables of [parseLyrics] that live across loop iterations. *)
Record scan := {
  structure : gmap string string;
  title : string;
  currentSection : string;
  currentContent : list string
}.

Definition scanStart : scan := {|
  structure := ∅;
  title := "Untitled Song";
  currentSection := "";
  currentContent := []
|}.

(** The statement that saves a section, used before a new header and after
    the loop:
    [if currentSection != "" && len(currentContent) > 0 { structure[...] = ... }]. *)
Definition saveSection (st : scan) : gmap string string :=
  if decide (currentSection st ≠ "" ∧ (0 < length (currentContent st))%nat)
  then <[currentSection st := Join (currentContent st) nl]> (structure st)
  else structure st.

Section parser.
Context {tables : UnicodeTables}.

(** The test [strings.HasPrefix(line, "[") && strings.HasSuffix(line, "]")],
    on a line that was trimmed already. *)
Definition bracketed (line : string) : bool :=
  HasPrefix line "[" && HasSuffix line "]".

(** One iteration of [for _, line := range lines]. *)
Definition scanLine (st : scan) (line : string) : scan :=
  let line := TrimSpace line in
  if decide (line = "") then st
  else if bracketed line then
    let structure' := saveSection st in
    let sectionName := ToLower (Trim line "[]") in
    if HasPrefix sectionName "title:" then
      {| structure := structure';
         title := TrimSpace (TrimPrefix sectionName "title:");
         currentSection := "";
         currentContent := currentContent st |}
    else
      {| structure := structure';
         title := title st;
         currentSection := sectionName;
         currentContent := [] |}
  else if decide (currentSection st ≠ "") then
    {| structure := structure st;
       title := title st;
       currentSection := currentSection st;
       currentContent := currentContent st ++ [line] |}
  else st.

(** The whole loop, from a given state. *)
Definition scanLines (st : scan) (lines : list string) : scan :=
  fold_left scanLine lines st.

(** The mapping after the loop and the final save, before the fallback. *)
Definition sections (lines : list string) : gmap string string :=
  saveSection (scanLines scanStart lines).

(** [if len(structure) == 0 { structure["verse1"] = text }]. *)
Definition wholeTextIfEmpty (text : string) (structure : gmap string string) :
    gmap string string :=
  if decide (size structure = 0%nat) then <["verse1" := text]> structure
  else structure.

(** The parameter [req] is not used by the Go function either. *)
Definition parseLyrics (text : string) (req : LyricsRequest) : GeneratedLyrics :=
  let lines := Split text newline in
  {| Title := title (scanLines scanStart lines);
     Structure := wholeTextIfEmpty text (sections lines) |}.

(** *** Vocabulary for statements about the loop *)

(** A line that the loop treats as a header. *)
Definition isHeader (line : string) : bool := bracketed (TrimSpace line).

(** A line that the loop skips. *)
Definition isBlank (line : string) : Prop := TrimSpace line = "".

(** The value of [sectionName] that the loop computes for a header line. *)
Definition sectionNameOf (line : string) : string :=
  ToLower (Trim (TrimSpace line) "[]").

(** The title that a line sets, if it is a title header. *)
Definition titleOf (line : string) : option string :=
  if isHeader line && HasPrefix (sectionNameOf line) "title:"
  then Some (TrimSpace (TrimPrefix (sectionNameOf line) "title:"))
  else None.

(** Two states that no later step can tell apart as far as the mapping goes:
    the lines collected so far matter only while a section is open. *)
Definition sameSections (a b : scan) : Prop :=
  structure a = structure b ∧
  currentSection a = currentSection b ∧
  (currentSection a ≠ "" → currentContent a = currentContent b).

End parser.

(** ** The handler [generateLyrics] *)

(** [m[key]] on a Go [map[string]bool]: a missing key reads as [false]. *)
Definition index (m : gmap string bool) (key : string) : bool :=
  default false (m !! key).

Definition allTrue (keys : list string) : gmap string bool :=
  list_to_map ((λ k, (k, true)) <$> keys).

Definition ValidGenres : gmap string bool :=
  allTrue ["pop"; "rock"; "country"; "hip-hop"; "r&b"; "jazz"; "folk";
           "electronic"; "classical"; "reggae"; "blues"; "indie"].

Definition ValidEmotions : gmap string bool :=
  allTrue ["happy"; "sad"; "romantic"; "energetic"; "melancholic"; "hopeful";
           "nostalgic"; "peaceful"; "excited"; "contemplative"].

Definition ValidLanguages : gmap string bool :=
  allTrue ["english"; "spanish"; "french"; "german"; "italian"; "portuguese";
           "japanese"; "korean"].

(** Go leaves the order of [for key := range validMap] open and picks
    another one from run to run. [rangeKeys] is the order of a run: some
    arrangement of the keys of the map, whichever. *)
Class MapIteration := {
  rangeKeys : gmap string bool → list string;
  rangeKeys_keys : ∀ m, rangeKeys m ≡ₚ (map_to_list m).*1
}.

Definition getValidOptions `{MapIteration} (validMap : gmap string bool) : string :=
  let options := rangeKeys validMap in
  Join options ", ".

(** Two orders to run the handler with: the keys as [map_to_list] has them,
    and the same the other way round. *)
#[export] Instance listedOrder : MapIteration := {|
  rangeKeys m := (map_to_list m).*1;
  rangeKeys_keys m := Permutation_refl _
|}.

Definition reverseOrder : MapIteration := {|
  rangeKeys m := reverse (map_to_list m).*1;
  rangeKeys_keys m := reverse_Permutation _
|}.

Definition badRequest (code message : string) : reply :=
  {| status := 400; body := inl {| Error := code; Message := message |} |}.

(** What the handler answers once [service.GenerateLyrics] has returned. *)
Definition respond {E : Type} (outcome : result E LyricsResponse) : reply :=
  match outcome with
  | err _ =>
      {| status := 500;
         body := inl {| Error := "generation_failed";
                        Message := "Failed to generate lyrics. Please try again." |} |}
  | ok response => {| status := 200; body := inr response |}
  end.

(** The [binding] tags of [LyricsRequest] and [SongStructure], which
    [c.ShouldBindJSON] checks once the body is decoded:
    [Keywords] [required,min=1,max=10], [Genre], [Emotion] and [Language]
    [required], [Verses] [min=1,max=4] (without [omitempty], so that the 0 of
    an omitted field does not pass). *)
Definition bindingPasses (req : LyricsRequest) : bool :=
  bool_decide (1 ≤ length (Keywords req) ≤ 10)%nat &&
  bool_decide (Genre req ≠ "") &&
  bool_decide (Emotion req ≠ "") &&
  bool_decide (Language req ≠ "") &&
  bool_decide (1 ≤ Verses (Structure_ req) ≤ 4).

(** [c.ShouldBindJSON(&req)]. [decoded] is what [encoding/json] makes of the
    body: an error, or the structure with zeros for the fields the body
    leaves out. [explain] is the text of the validator for a structure that
    fails a tag. *)
Definition ShouldBindJSON (explain : LyricsRequest → string)
    (decoded : result string LyricsRequest) : result string LyricsRequest :=
  match decoded with
  | err e => err e
  | ok req => if bindingPasses req then ok req else err (explain req)
  end.

Section handler.
Context {tables : UnicodeTables} {iteration : MapIteration}.

(** The two statements under [// Set default structure if not provided]. *)
Definition setDefaultStructure (req : LyricsRequest) : LyricsRequest :=
  let st := Structure_ req in
  let st := if decide (Verses st = 0)
            then {| Verses := 2; Chorus := Chorus st; Bridge := Bridge st |}
            else st in
  let st := if negb (Chorus st)
            then {| Verses := Verses st; Chorus := true; Bridge := Bridge st |}
            else st in
  {| Keywords := Keywords req; Genre := Genre req; Emotion := Emotion req;
     Language := Language req; Structure_ := st |}.

(** The three look-ups that precede the defaults. *)
Definition accepted (req : LyricsRequest) : bool :=
  index ValidGenres (ToLower (Genre req)) &&
  index ValidEmotions (ToLower (Emotion req)) &&
  index ValidLanguages (ToLower (Language req)).

(** The first look-up a request fails: the code of the answer, the start
    of its message and the map whose keys the message lists. *)
Definition firstFailure (req : LyricsRequest) :
    string * string * gmap string bool :=
  if negb (index ValidGenres (ToLower (Genre req)))
  then ("invalid_genre", "Unsupported genre. Supported genres: ", ValidGenres)
  else if negb (index ValidEmotions (ToLower (Emotion req)))
  then ("invalid_emotion", "Unsupported emotion. Supported emotions: ", ValidEmotions)
  else ("invalid_language", "Unsupported language. Supported languages: ",
        ValidLanguages).

(** The closure returned by [generateLyrics(service)]. [bound] is the outcome
    of [c.ShouldBindJSON(&req)], which [ShouldBindJSON] above computes, and
    [service] stands for the method [service.GenerateLyrics]. *)
Definition generateLyrics {E : Type}
    (service : LyricsRequest → result E LyricsResponse)
    (bound : result string LyricsRequest) : reply :=
  match bound with
  | err e => badRequest "invalid_request" e
  | ok req =>
      if negb (index ValidGenres (ToLower (Genre req))) then
        badRequest "invalid_genre"
          ("Unsupported genre. Supported genres: " +:+ getValidOptions ValidGenres)
      else if negb (index ValidEmotions (ToLower (Emotion req))) then
        badRequest "invalid_emotion"
          ("Unsupported emotion. Supported emotions: " +:+ getValidOptions ValidEmotions)
      else if negb (index ValidLanguages (ToLower (Language req))) then
        badRequest "invalid_language"
          ("Unsupported language. Supported languages: " +:+ getValidOptions ValidLanguages)
      else
        let req := setDefaultStructure req in
        respond (service req)
  end.

End handler.

(** ** [sanitizeForLogging], direct API-key variant *)

Module Direct.
Section sanitize.
Context {tables : UnicodeTables}.

Definition sanitizeForLogging (input : string) : string :=
  if Contains (ToLower input) "bearer " then "[REDACTED_API_KEY]"
  else if HasPrefix (ToLower input) "sk-" then "[REDACTED_API_KEY]"
  else if existsb (λ prefix, HasPrefix (ToLower input) prefix)
                  ["sk-"; "pk-"; "api_"; "token_"]
       then "[REDACTED_API_KEY]"
  else input.

End sanitize.
End Direct.

(** ** Time *)

(** Instants ([time.Time]) are nanoseconds on one time line; a
    [time.Duration] is an [int64] count of nanoseconds. *)
Definition Second : Z := 1000000000.

Definition wrap64 (z : Z) : Z := (z + 2 ^ 63) mod 2 ^ 64 - 2 ^ 63.

(** [time.Duration(n) * time.Second], an [int64] multiplication. *)
Definition seconds (n : Z) : Z := wrap64 (n * Second).

(** ** The gateway variants: [sanitizeForLogging] and the token cache *)

Module Gateway.

Record OAuthTokenResponse := {
  AccessToken : string;
  TokenType : string;
  ExpiresIn : Z;
  Scope : string;
  Error : string;
  ErrorDesc : string
}.

(** The fields of the Go struct without [httpClient], whose calls are the
    [exchange]s below, and without [mutex]: a call runs alone, and what the
    other goroutines may do while it waits for the write lock is [handover]. *)
Record OAuthClient := {
  tokenEndpoint : string;
  clientID : string;
  clientSecret : string;
  scope : string;
  accessToken : string;
  expiresAt : Z
}.

(** What happens to one token request. *)
Inductive exchange :=
  | createFails (cause : string)
      (** [http.NewRequestWithContext] returns an error *)
  | doFails (cause : string)
      (** [o.httpClient.Do] returns an error *)
  | readFails (cause : string)
      (** [io.ReadAll(resp.Body)] returns an error *)
  | responds (code : Z) (raw : string) (decoded : result string OAuthTokenResponse)
      (** a response with [resp.StatusCode], the bytes of its body and what
          [json.Unmarshal] makes of them *).

(** The errors [requestNewToken] returns, one constructor per [fmt.Errorf]. *)
Inductive tokenError :=
  | createRequestError (cause : string)
  | requestError (cause : string)
  | readError (cause : string)
  | parseError (cause : string)
  | oauthError (error description : string)
  | statusError (code : Z) (raw : string)
  | emptyTokenError.

Inductive logValue :=
  | Str (s : string)
  | Int (n : Z)
  | Instant (t : Z).

Record logRecord := {
  level : string;
  fields : list (string * logValue);
  msg : string
}.

(** Everything outside the client: the clock, the token endpoint, the other
    goroutines and the log. *)
Record world := {
  clock : nat → Z;              (** the n-th value of [time.Now()] *)
  ticks : nat;                  (** how many values were read *)
  endpoint : nat → exchange;    (** what becomes of the token request in
                                    the n-th run of [requestNewToken] *)
  exchanges : nat;              (** how many times [requestNewToken] ran *)
  posted : nat;                 (** how many token requests were handed to
                                    [o.httpClient.Do] *)
  racing : option (string * Z); (** a token another goroutine stores between
                                    [o.mutex.RUnlock()] and [o.mutex.Lock()] *)
  log : list logRecord
}.

Record state := {
  client : OAuthClient;
  env : world
}.

(** The state monad the two methods run in. *)
Definition M (A : Type) : Type := state → A * state.

#[export] Instance M_ret : MRet M := λ A a s, (a, s).
#[export] Instance M_bind : MBind M :=
  λ A B f m s, let '(a, s') := m s in f a s'.

Definition getClient : M OAuthClient := λ s, (client s, s).

Definition timeNow : M Z := λ s,
  let w := env s in
  (clock w (ticks w),
   {| client := client s;
      env := {| clock := clock w; ticks := S (ticks w); endpoint := endpoint w;
                exchanges := exchanges w; posted := posted w;
                racing := racing w; log := log w |} |}).

(** What becomes of the token request of this run of [requestNewToken]. *)
Definition fateOfRequest : M exchange := λ s,
  let w := env s in
  (endpoint w (exchanges w),
   {| client := client s;
      env := {| clock := clock w; ticks := ticks w; endpoint := endpoint w;
                exchanges := S (exchanges w); posted := posted w;
                racing := racing w; log := log w |} |}).

(** [o.httpClient.Do(httpReq)]: the request goes out. *)
Definition httpDo : M unit := λ s,
  let w := env s in
  (tt,
   {| client := client s;
      env := {| clock := clock w; ticks := ticks w; endpoint := endpoint w;
                exchanges := exchanges w; posted := S (posted w);
                racing := racing w; log := log w |} |}).

Definition emit (r : logRecord) : M unit := λ s,
  let w := env s in
  (tt,
   {| client := client s;
      env := {| clock := clock w; ticks := ticks w; endpoint := endpoint w;
                exchanges := exchanges w; posted := posted w; racing := racing w;
                log := log w ++ [r] |} |}).

(** [o.accessToken = token; o.expiresAt = expiry]. *)
Definition store (token : string) (expiry : Z) : M unit := λ s,
  let c := client s in
  (tt,
   {| client := {| tokenEndpoint := tokenEndpoint c; clientID := clientID c;
                   clientSecret := clientSecret c; scope := scope c;
                   accessToken := token; expiresAt := expiry |};
      env := env s |}).

(** From [o.mutex.RUnlock()] to [o.mutex.Lock()]: another goroutine may have
    refreshed the token in between. *)
Definition handover : M unit := λ s,
  let w := env s in
  let quiet := {| clock := clock w; ticks := ticks w; endpoint := endpoint w;
                  exchanges := exchanges w; posted := posted w; racing := None; log := log w |} in
  match racing w with
  | None => (tt, {| client := client s; env := quiet |})
  | Some (token, expiry) =>
      store token expiry {| client := client s; env := quiet |}
  end.

(** The last value of [time.Now()] that was read. *)
Definition lastReading (s : state) : Z := clock (env s) (pred (ticks (env s))).

Section oauth.
Context {tables : UnicodeTables}.

Definition sanitizeForLogging (input : string) : string :=
  if Contains (ToLower input) "bearer " then "[REDACTED_BEARER_TOKEN]"
  else if HasPrefix (ToLower input) "sk-" then "[REDACTED_API_KEY]"
  else if existsb (λ prefix, HasPrefix (ToLower input) prefix)
                  ["sk-"; "pk-"; "api_"; "token_"; "ey"; "access_token"]
       then "[REDACTED_TOKEN]"
  else if bool_decide (20 < String.length input)%nat &&
          (Contains (ToLower input) "secret" || Contains (ToLower input) "client")
       then "[REDACTED_CREDENTIALS]"
  else input.

(** [o.accessToken != "" && time.Now().Add(30*time.Second).Before(o.expiresAt)];
    the clock is read only when there is a token. *)
Definition haveValidToken : M bool :=
  c ← getClient;
  if decide (accessToken c ≠ "") then
    now ← timeNow;
    mret (bool_decide (now + 30 * Second < expiresAt c))
  else mret false.

Definition fail (fields : list (string * logValue)) (message : string)
    (e : tokenError) : M (result tokenError string) :=
  _ ← emit {| level := "error"; fields := fields; msg := message |};
  mret (err e).

(** The record written before the request is sent. *)
Definition announce (o : OAuthClient) : M unit :=
  emit {| level := "debug";
          fields := [("token_endpoint", Str (tokenEndpoint o));
                     ("client_id", Str (sanitizeForLogging (clientID o)));
                     ("scope", Str (scope o))];
          msg := "Requesting OAuth access token" |}.

(** The form that is posted (grant type, client id and secret, scope) has no
    influence on the rest of the function and is left out. *)
Definition requestNewToken : M (result tokenError string) :=
  o ← getClient;
  x ← fateOfRequest;
  match x with
  | createFails cause => mret (err (createRequestError cause))
  | doFails cause =>
      _ ← announce o;
      _ ← httpDo;
      fail [("error", Str cause); ("token_endpoint", Str (tokenEndpoint o))]
           "OAuth token request failed" (requestError cause)
  | readFails cause =>
      _ ← announce o;
      _ ← httpDo;
      mret (err (readError cause))
  | responds code raw (err cause) =>
      _ ← announce o;
      _ ← httpDo;
      fail [("error", Str cause); ("body", Str raw)]
           "Failed to parse OAuth token response" (parseError cause)
  | responds code raw (ok tokenResp) =>
      _ ← announce o;
      _ ← httpDo;
      if decide (Error tokenResp ≠ "") then
        fail [("error", Str (Error tokenResp));
              ("error_description", Str (ErrorDesc tokenResp));
              ("status_code", Int code)]
             "OAuth token request error"
             (oauthError (Error tokenResp) (ErrorDesc tokenResp))
      else if decide (code ≠ 200) then
        fail [("status_code", Int code); ("body", Str raw)]
             "OAuth token endpoint returned non-200 status"
             (statusError code raw)
      else if decide (AccessToken tokenResp = "") then
        mret (err emptyTokenError)
      else
        let expiresIn := ExpiresIn tokenResp in
        let expiresIn := if decide (expiresIn ≤ 0) then 3600 else expiresIn in
        now ← timeNow;
        _ ← store (AccessToken tokenResp) (now + seconds expiresIn);
        o ← getClient;
        _ ← emit {| level := "debug";
                    fields := [("token_type", Str (TokenType tokenResp));
                               ("expires_in", Int (ExpiresIn tokenResp));
                               ("expires_at", Instant (expiresAt o))];
                    msg := "Successfully obtained OAuth access token" |};
        mret (ok (accessToken o))
  end.

Definition GetAccessToken : M (result tokenError string) :=
  haveValidToken ≫= λ valid : bool,
  if valid then
    o ← getClient; mret (ok (accessToken o))
  else
    _ ← handover;
    haveValidToken ≫= λ valid : bool,
    if valid then
      o ← getClient; mret (ok (accessToken o))
    else requestNewToken.

End oauth.

(** The outcomes on which a token request goes out. *)
Definition built (x : exchange) : bool :=
  match x with
  | createFails _ => false
  | _ => true
  end.

(** The failure conditions of the token exchange, in the words of the
    specification. *)
Definition exchangeFails (x : exchange) : Prop :=
  match x with
  | createFails _ | doFails _ | readFails _ => True   (* the request fails *)
  | responds code raw (err _) => True                 (* the body is not JSON *)
  | responds code raw (ok tokenResp) =>
      Error tokenResp ≠ "" ∨ code ≠ 200 ∨ AccessToken tokenResp = ""
  end.

(** The markers the gateway version of [sanitizeForLogging] can return. *)
Definition markers : list string :=
  ["[REDACTED_BEARER_TOKEN]"; "[REDACTED_API_KEY]"; "[REDACTED_TOKEN]";
   "[REDACTED_CREDENTIALS]"].

(** The life time [requestNewToken] gives a token, in seconds. *)
Definition lifetime (tokenResp : OAuthTokenResponse) : Z :=
  if decide (ExpiresIn tokenResp ≤ 0) then 3600 else ExpiresIn tokenResp.

End Gateway.

(** ** Concrete inputs *)

(** What [encoding/json] makes of a body that gives keywords, genre, emotion
    and language and leaves the structure out. *)
Definition anyRequest : LyricsRequest :=
  {| Keywords := ["love"; "sunset"]; Genre := "pop"; Emotion := "happy";
     Language := "english";
     Structure_ := {| Verses := 0; Chorus := false; Bridge := false |} |}.

(** A request for three verses without chorus. *)
Definition quietRequest : LyricsRequest :=
  {| Keywords := ["rain"; "window"]; Genre := "Folk"; Emotion := "peaceful";
     Language := "english";
     Structure_ := {| Verses := 3; Chorus := false; Bridge := true |} |}.

(** ["[Title: Love Song]\n[Verse 1]\nline a\nline b\n[Chorus]\nline c"] *)
Definition loveSong : string :=
  "[Title: Love Song]" +:+ nl +:+ "[Verse 1]" +:+ nl +:+ "line a" +:+ nl +:+
  "line b" +:+ nl +:+ "[Chorus]" +:+ nl +:+ "line c".

(** ["[Verse 1]\n[Chorus]\ntext"] *)
Definition twoHeaders : string :=
  "[Verse 1]" +:+ nl +:+ "[Chorus]" +:+ nl +:+ "text".

(** ["[Title: First]\n[Title: Second]\n[Verse 1]\nla la"] *)
Definition twoTitles : string :=
  "[Title: First]" +:+ nl +:+ "[Title: Second]" +:+ nl +:+ "[Verse 1]" +:+ nl +:+
  "la la".

(** A string of 28 bytes that names a client secret. *)
Definition secretNote : string := "the client secret is hunter2".

Definition quoted (s : string) : string :=
  String "034"%char s +:+ String "034"%char "".

(** The body [{"access_token":"tok","expires_in":n}], as bytes and decoded. *)
Definition tokenBody (digits : string) : string :=
  "{" +:+ quoted "access_token" +:+ ":" +:+ quoted "tok" +:+ "," +:+
  quoted "expires_in" +:+ ":" +:+ digits +:+ "}".

Definition tokenFor (n : Z) : Gateway.OAuthTokenResponse :=
  {| Gateway.AccessToken := "tok"; Gateway.TokenType := "";
     Gateway.ExpiresIn := n; Gateway.Scope := ""; Gateway.Error := "";
     Gateway.ErrorDesc := "" |}.

(** A client that holds no token yet, in a world whose clock advances by one
    second per reading and whose token endpoint answers with status 200 and a
    token that expires after [n] seconds. *)
Definition coldStart (digits : string) (n : Z) : Gateway.state :=
  {| Gateway.client :=
       {| Gateway.tokenEndpoint := "https://idp.example.com/oauth2/token";
          Gateway.clientID := "song-writer";
          Gateway.clientSecret := "hunter2";
          Gateway.scope := "";
          Gateway.accessToken := "";
          Gateway.expiresAt := 0 |};
     Gateway.env :=
       {| Gateway.clock := λ k, (1700000000 + Z.of_nat k) * Second;
          Gateway.ticks := 0;
          Gateway.endpoint := λ _, Gateway.responds 200 (tokenBody digits) (ok (tokenFor n));
          Gateway.exchanges := 0;
          Gateway.posted := 0;
          Gateway.racing := None;
          Gateway.log := [] |} |}.

(** ["la la la\nno headers here"] *)
Definition plainText : string := "la la la" +:+ nl +:+ "no headers here".

(** ** [countWords] *)

Fixpoint isASCII (s : string) : bool :=
  match s with
  | "" => true
  | String c rest => (nat_of_ascii c <? 128)%nat && isASCII rest
  end.

Fixpoint allSpace (s : string) : bool :=
  match s with
  | "" => true
  | String c rest => Ascii.is_space c && allSpace rest
  end.

Definition startsWithSpace (s : string) : bool :=
  match s with
  | "" => true
  | String c _ => Ascii.is_space c
  end.

(** [strings.Fields(s)] as Go computes it on a string of ASCII bytes: the
    maximal runs of bytes other than tab, line feed, vertical tab, form feed,
    carriage return and space. (On other strings Go splits at the white space
    of Unicode.) *)
Fixpoint Fields (s : string) : list string :=
  match s with
  | "" => []
  | String c rest =>
      if Ascii.is_space c then Fields rest
      else if startsWithSpace rest then String c "" :: Fields rest
      else match Fields rest with
           | field :: fields => String c field :: fields
           | [] => [String c ""]
           end
  end.

Definition countWords (text : string) : Z := Z.of_nat (length (Fields text)).

Fixpoint noSpace (s : string) : bool :=
  match s with
  | "" => true
  | String c rest => negb (Ascii.is_space c) && noSpace rest
  end.

(** A word: at least one byte, none of them white space. *)
Definition isWord (w : string) : Prop := w ≠ "" ∧ noSpace w = true.

Section parser_more.
Context {tables : UnicodeTables}.

(** The lines a section collects from the lines that follow its header. *)
Definition contentOf (body : list string) : list string :=
  filter (λ l, l ≠ "") (TrimSpace <$> body).

(** What the mapping holds while [parseLyrics] runs: no empty key, no empty
    text, and no empty line among the lines collected. *)
Definition wellFormed (st : scan) : Prop :=
  (∀ k v, structure st !! k = Some v → k ≠ "" ∧ v ≠ "") ∧
  Forall (λ l, l ≠ "") (currentContent st).

End parser_more.

(** ["Here is your song:\n\n[Verse 1]\nla la\n[Chorus]\n\nna na \nhey"] *)
Definition songWithIntro : string :=
  "Here is your song:" +:+ nl +:+ nl +:+ "[Verse 1]" +:+ nl +:+ "la la" +:+ nl +:+
  "[Chorus]" +:+ nl +:+ nl +:+ "na na " +:+ nl +:+ "hey".

(** ["[Title: Night]\nby nobody\n[Verse 1]\nla la"] *)
Definition songWithByline : string :=
  "[Title: Night]" +:+ nl +:+ "by nobody" +:+ nl +:+ "[Verse 1]" +:+ nl +:+ "la la".

(** ** [buildPrompt] *)

(** The verb [%d] of [fmt.Sprintf] on an [int]. *)
Definition formatInt (n : Z) : string := NilZero.string_of_int (Z.to_int n).

(** The verb [%t]. *)
Definition formatBool (b : bool) : string := if b then "true" else "false".

(** The format string of [buildPrompt] cut at its verbs, the arguments put in
    their places; [fmt.Sprintf] writes the pieces one after the other. *)
Definition promptPieces (req : LyricsRequest) : list string :=
  let keywords := Join (Keywords req) ", " in
  [ "Write song lyrics in "; Language req;
    " with the following specifications:" +:+ nl +:+ nl +:+ "Genre: "; Genre req;
    nl +:+ "Emotion/Mood: "; Emotion req;
    nl +:+ "Keywords to include: "; keywords;
    nl +:+ "Number of verses: "; formatInt (Verses (Structure_ req));
    nl +:+ "Include chorus: "; formatBool (Chorus (Structure_ req));
    nl +:+ "Include bridge: "; formatBool (Bridge (Structure_ req));
    nl +:+ nl +:+
    "Requirements:" +:+ nl +:+
    "- Family-friendly content only (suitable for all ages)" +:+ nl +:+
    "- No explicit language, violence, or inappropriate themes" +:+ nl +:+
    "- Creative and engaging lyrics that flow well" +:+ nl +:+
    "- Natural incorporation of the provided keywords" +:+ nl +:+
    "- Clear structure with labeled sections" +:+ nl +:+ nl +:+
    "Please format the output with clear section labels like:" +:+ nl +:+
    "[Title: Song Title Here]" +:+ nl +:+
    "[Verse 1]" +:+ nl +:+ "..." +:+ nl +:+
    "[Chorus]" +:+ nl +:+ "..." +:+ nl +:+
    "[Verse 2]" +:+ nl +:+ "..." +:+ nl +:+
    "[Bridge] (if requested)" +:+ nl +:+ "..." +:+ nl +:+ nl +:+
    "Make sure the lyrics capture the "; Emotion req;
    " emotion and fit the "; Genre req; " genre style." ].

Definition buildPrompt (req : LyricsRequest) : string :=
  Join (promptPieces req) "".

(** [promptSystem]. *)
Definition promptSystem : string :=
  "You are a professional songwriter who creates family-friendly, appropriate lyrics for all ages. Always ensure content is positive and suitable for children.".

(** ** The service of the direct API-key variant: [GenerateLyrics] *)

Module DirectAPI.

(** The structures of the chat API. Fields whose Go names are taken already
    ([Message], [ID], [Model], [Error]) or are reserved ([Type]) carry the
    name of their structure in front; [Param] and [Code], of type
    [interface{}], hold the JSON text of their value. The temperature is the
    decimal written in the source. *)
Record OpenAIChatMessage := {
  Role : string;
  Content : string
}.

Record OpenAIChatRequest := {
  Model : string;
  Messages : list OpenAIChatMessage;
  MaxTokens : Z;
  Temperature : QArith_base.Q
}.

Record OpenAIChatChoice := {
  Index : Z;
  ChoiceMessage : OpenAIChatMessage;
  FinishReason : string
}.

Record OpenAIUsage := {
  PromptTokens : Z;
  CompletionTokens : Z;
  TotalTokens : Z
}.

Record OpenAIErrorResponse := {
  ErrorMessage : string;
  ErrorType : string;
  Param : string;
  Code : string
}.

Record OpenAIChatResponse := {
  ResponseID : string;
  Object : string;
  Created : Z;
  ResponseModel : string;
  Choices : list OpenAIChatChoice;
  Usage : OpenAIUsage;
  APIError : option OpenAIErrorResponse
}.

(** [LyricsService] without its [httpClient], whose calls are the
    [completion]s below. *)
Record LyricsService := {
  apiKey : string;
  baseURL : string;
  model : string
}.

Definition NewLyricsService (apiKey baseURL model : string) : LyricsService :=
  let baseURL := if decide (baseURL = "") then "https://api.openai.com" else baseURL in
  {| apiKey := apiKey; baseURL := baseURL; model := model |}.

(** The request handed to [s.httpClient.Do]; [Payload] is the value whose
    JSON encoding is the body. [http.Header] maps a name to a list of
    values. *)
Record httpRequest := {
  Method : string;
  URL : string;
  Header : gmap string (list string);
  Payload : OpenAIChatRequest
}.

(** What happens to one call of the chat API. *)
Inductive completion :=
  | marshalFails (cause : string)
      (** [json.Marshal] returns an error *)
  | createFails (cause : string)
      (** [http.NewRequestWithContext] returns an error *)
  | doFails (cause : string)
      (** [s.httpClient.Do] returns an error *)
  | readFails (cause : string)
      (** [io.ReadAll(resp.Body)] returns an error *)
  | responds (code : Z) (raw : string) (decoded : result string OpenAIChatResponse)
      (** a response with [resp.StatusCode], the bytes of its body and what
          [json.Unmarshal] makes of them *).

(** The errors [GenerateLyrics] returns, one constructor per [fmt.Errorf]. *)
Inductive serviceError :=
  | marshalError (cause : string)
  | createRequestError (cause : string)
  | requestError (cause : string)
  | readError (cause : string)
  | parseError (cause : string)
  | apiError (message : string)
  | statusError (code : Z) (raw : string)
  | noChoicesError.

Inductive logValue :=
  | Str (s : string)
  | Int (n : Z)
  | Obj (req : LyricsRequest)
  | Json (text : string).

Record logRecord := {
  level : string;
  fields : list (string * logValue);
  msg : string
}.

(** Everything outside the service: the clock, the chat API, the source of
    identifiers and the log. *)
Record world := {
  clock : nat → Z;             (** the n-th value of [time.Now()] *)
  ticks : nat;                 (** how many values were read *)
  upstream : nat → completion; (** what becomes of the call made after n
                                   requests went out *)
  calls : nat;                 (** how many requests were handed to
                                   [s.httpClient.Do] *)
  sent : list httpRequest;     (** those requests *)
  uuids : nat → string;        (** the n-th value of [uuid.New().String()] *)
  drawn : nat;                 (** how many identifiers were drawn *)
  log : list logRecord
}.

Definition M (A : Type) : Type := world → A * world.

#[export] Instance M_ret : MRet M := λ A a w, (a, w).
#[export] Instance M_bind : MBind M :=
  λ A B f m w, let '(a, w') := m w in f a w'.

Definition timeNow : M Z := λ w,
  (clock w (ticks w),
   {| clock := clock w; ticks := S (ticks w); upstream := upstream w;
      calls := calls w; sent := sent w; uuids := uuids w; drawn := drawn w;
      log := log w |}).

Definition newUUID : M string := λ w,
  (uuids w (drawn w),
   {| clock := clock w; ticks := ticks w; upstream := upstream w;
      calls := calls w; sent := sent w; uuids := uuids w; drawn := S (drawn w);
      log := log w |}).

(** What becomes of the call this run of [GenerateLyrics] sets out to make;
    the count moves when the request is handed over, in [send]. *)
Definition fateOfCall : M completion := λ w, (upstream w (calls w), w).

(** [s.httpClient.Do(httpReq)]: the request goes out. *)
Definition send (r : httpRequest) : M unit := λ w,
  (tt,
   {| clock := clock w; ticks := ticks w; upstream := upstream w;
      calls := S (calls w); sent := sent w ++ [r]; uuids := uuids w;
      drawn := drawn w; log := log w |}).

Definition emit (r : logRecord) : M unit := λ w,
  (tt,
   {| clock := clock w; ticks := ticks w; upstream := upstream w;
      calls := calls w; sent := sent w; uuids := uuids w; drawn := drawn w;
      log := log w ++ [r] |}).

Definition fail {A : Type} (fields : list (string * logValue)) (message : string)
    (e : serviceError) : M (result serviceError A) :=
  _ ← emit {| level := "error"; fields := fields; msg := message |};
  mret (err e).

Section service.
Context {tables : UnicodeTables}.

(** The value that is marshalled. *)
Definition chatRequest (s : LyricsService) (req : LyricsRequest) : OpenAIChatRequest :=
  {| Model := model s;
     Messages := [ {| Role := "system"; Content := promptSystem |};
                   {| Role := "user"; Content := buildPrompt req |} ];
     MaxTokens := 1000;
     Temperature := QArith_base.Qmake 8 10 |}.

(** The request that is built, with its two headers set. *)
Definition chatCall (s : LyricsService) (req : LyricsRequest) : httpRequest :=
  {| Method := "POST";
     URL := baseURL s +:+ "/v1/chat/completions";
     Header := <["Authorization" := ["Bearer " +:+ apiKey s]]>
                 (<["Content-Type" := ["application/json"]]> ∅);
     Payload := chatRequest s req |}.

(** The record written before the request is sent, and the sending. *)
Definition post (s : LyricsService) (req : LyricsRequest) : M unit :=
  _ ← emit {| level := "debug";
              fields := [("model", Str (model s));
                         ("url", Str (baseURL s +:+ "/v1/chat/completions"));
                         ("prompt", Str (Direct.sanitizeForLogging (buildPrompt req)));
                         ("request", Obj req)];
              msg := "Sending request to OpenAI" |};
  send (chatCall s req).

Definition GenerateLyrics (s : LyricsService) (req : LyricsRequest) :
    M (result serviceError LyricsResponse) :=
  x ← fateOfCall;
  match x with
  | marshalFails cause => mret (err (marshalError cause))
  | createFails cause => mret (err (createRequestError cause))
  | doFails cause =>
      _ ← post s req;
      fail [("error", Str cause); ("model", Str (model s));
            ("url", Str (baseURL s +:+ "/v1/chat/completions"))]
           "HTTP request failed" (requestError cause)
  | readFails cause =>
      _ ← post s req;
      mret (err (readError cause))
  | responds code raw (err cause) =>
      _ ← post s req;
      fail [("error", Str cause); ("body", Str raw)]
           "Failed to parse OpenAI response" (parseError cause)
  | responds code raw (ok openaiResp) =>
      _ ← post s req;
      match APIError openaiResp with
      | Some e =>
          fail [("error_type", Str (ErrorType e));
                ("error_message", Str (ErrorMessage e));
                ("error_code", Json (Code e))]
               "OpenAI API error" (apiError (ErrorMessage e))
      | None =>
          if decide (code ≠ 200) then
            fail [("status_code", Int code); ("body", Str raw)]
                 "OpenAI API returned non-200 status" (statusError code raw)
          else
            match Choices openaiResp with
            | [] =>
                fail [("model", Str (model s)); ("response", Str raw)]
                     "OpenAI API returned no choices" noChoicesError
            | choice :: _ =>
                let generatedText := Content (ChoiceMessage choice) in
                let lyrics := parseLyrics generatedText req in
                let wordCount := countWords generatedText in
                id ← newUUID;
                now ← timeNow;
                let lyricsResponse :=
                  {| ID := id;
                     Lyrics := lyrics;
                     Metadata := {| MetaGenre := Genre req;
                                    MetaEmotion := Emotion req;
                                    MetaLanguage := Language req;
                                    KeywordsUsed := Keywords req;
                                    CreatedAt := now;
                                    WordCount := wordCount |} |} in
                _ ← emit {| level := "debug";
                            fields := [("response_id", Str (ID lyricsResponse));
                                       ("word_count", Int wordCount);
                                       ("title", Str (Title lyrics))];
                            msg := "Successfully generated lyrics" |};
                mret (ok lyricsResponse)
            end
      end
  end.

(** The response made from a generated text. *)
Definition made (req : LyricsRequest) (w : world)
    (generatedText : string) : LyricsResponse :=
  {| ID := uuids w (drawn w);
     Lyrics := parseLyrics generatedText req;
     Metadata := {| MetaGenre := Genre req;
                    MetaEmotion := Emotion req;
                    MetaLanguage := Language req;
                    KeywordsUsed := Keywords req;
                    CreatedAt := clock w (ticks w);
                    WordCount := countWords generatedText |} |}.

End service.

(** The outcomes on which [GenerateLyrics] returns an error. *)
Definition completionFails (x : completion) : Prop :=
  match x with
  | marshalFails _ | createFails _ | doFails _ | readFails _ => True
  | responds code raw (err _) => True
  | responds code raw (ok openaiResp) =>
      is_Some (APIError openaiResp) ∨ code ≠ 200 ∨ Choices openaiResp = []
  end.

(** The outcomes on which a request goes out. *)
Definition reachesNetwork (x : completion) : bool :=
  match x with
  | marshalFails _ | createFails _ => false
  | _ => true
  end.

End DirectAPI.

(** A chat API that answers every call with status 200 and the given
    choices, a clock that starts in November 2023, and identifiers
    [id-0], [id-1], ... *)
Definition answering (choices : list DirectAPI.OpenAIChatChoice) : DirectAPI.world :=
  {| DirectAPI.clock := λ k, (1700000000 + Z.of_nat k) * Second;
     DirectAPI.ticks := 0;
     DirectAPI.upstream := λ _,
       DirectAPI.responds 200 "{...}"
         (ok {| DirectAPI.ResponseID := "chatcmpl-1";
                DirectAPI.Object := "chat.completion";
                DirectAPI.Created := 1700000000;
                DirectAPI.ResponseModel := "gpt-3.5-turbo";
                DirectAPI.Choices := choices;
                DirectAPI.Usage := {| DirectAPI.PromptTokens := 100;
                                      DirectAPI.CompletionTokens := 20;
                                      DirectAPI.TotalTokens := 120 |};
                DirectAPI.APIError := None |});
     DirectAPI.calls := 0;
     DirectAPI.sent := [];
     DirectAPI.uuids := λ k, "id-" +:+ formatInt (Z.of_nat k);
     DirectAPI.drawn := 0;
     DirectAPI.log := [] |}.

Definition choiceOf (text : string) : DirectAPI.OpenAIChatChoice :=
  {| DirectAPI.Index := 0;
     DirectAPI.ChoiceMessage := {| DirectAPI.Role := "assistant";
                                   DirectAPI.Content := text |};
     DirectAPI.FinishReason := "stop" |}.

Definition demoService : DirectAPI.LyricsService :=
  DirectAPI.NewLyricsService "sk-demo" "" "gpt-3.5-turbo".


(** A request in capitals, as a client may send it. *)
Definition loudRequest : LyricsRequest :=
  {| Keywords := ["love"; "sunset"]; Genre := "POP"; Emotion := "Happy";
     Language := "English";
     Structure_ := {| Verses := 2; Chorus := false; Bridge := false |} |}.

(** ** The gateway variant with the vendor SDK: [OAuthTransport] *)

Module Transport.

(** An [http.Request] as far as the transport looks at it. *)
Record request := {
  Method : string;
  URL : string;
  Header : gmap string (list string);
  Body : string
}.

Record response := {
  StatusCode : Z;
  ResponseBody : string
}.

(** [err.Error()] for the errors of [requestNewToken]: the texts of its
    [fmt.Errorf] calls. *)
Definition errorText (e : Gateway.tokenError) : string :=
  match e with
  | Gateway.createRequestError cause => "failed to create token request: " +:+ cause
  | Gateway.requestError cause => "OAuth token request failed: " +:+ cause
  | Gateway.readError cause => "failed to read token response: " +:+ cause
  | Gateway.parseError cause => "failed to parse token response: " +:+ cause
  | Gateway.oauthError error description =>
      "OAuth error: " +:+ error +:+ " - " +:+ description
  | Gateway.statusError code raw =>
      "OAuth token endpoint returned status " +:+ formatInt code +:+ ": " +:+ raw
  | Gateway.emptyTokenError => "received empty access token"
  end.

Inductive transportError :=
  | authenticationError (e : Gateway.tokenError)
      (** ["OAuth authentication failed in transport: %w"] *)
  | baseError (cause : string)
      (** the error of the base transport, passed on *).

(** The [OAuthTransport] with the state of its [oauthClient], its
    [baseTransport] as a function of the request it is given, and the
    requests that were given to it. *)
Record state := {
  oauth : Gateway.state;
  baseTransport : request → result string response;
  forwarded : list request
}.

(** [newReq.Header.Set("Authorization", value)]. *)
Definition setAuthorization (value : string) (req : request) : request :=
  {| Method := Method req; URL := URL req;
     Header := <["Authorization" := [value]]> (Header req);
     Body := Body req |}.

Section transport.
Context {tables : UnicodeTables}.

(** [req.Clone] copies the request, so that the request of the caller is not
    changed; a value is its own copy here. *)
Definition RoundTrip (req : request) (t : state) :
    result transportError response * state :=
  let newReq := req in
  let '(got, o) := Gateway.GetAccessToken (oauth t) in
  match got with
  | err e =>
      let '(_, o) :=
        Gateway.emit {| Gateway.level := "error";
                        Gateway.fields := [("error", Gateway.Str (errorText e))];
                        Gateway.msg := "Failed to get OAuth token in transport" |} o in
      (err (authenticationError e),
       {| oauth := o; baseTransport := baseTransport t; forwarded := forwarded t |})
  | ok token =>
      let newReq := setAuthorization ("Bearer " +:+ token) newReq in
      let '(_, o) :=
        Gateway.emit
          {| Gateway.level := "debug";
             Gateway.fields :=
               [("method", Gateway.Str (Method newReq));
                ("url", Gateway.Str (URL newReq));
                ("authorization",
                 Gateway.Str (Gateway.sanitizeForLogging ("Bearer " +:+ token)))];
             Gateway.msg := "OAuth transport injecting token" |} o in
      (match baseTransport t newReq with
       | ok resp => ok resp
       | err cause => err (baseError cause)
       end,
       {| oauth := o; baseTransport := baseTransport t;
          forwarded := forwarded t ++ [newReq] |})
  end.

End transport.
End Transport.

(** ** The token cache over several calls *)

(** [NewOAuthClient]: no token yet, and the zero [time.Time] (1 January of
    the year 1, counted from 1970) as expiry. *)
Definition NewOAuthClient (tokenEndpoint clientID clientSecret scope : string) :
    Gateway.OAuthClient :=
  {| Gateway.tokenEndpoint := tokenEndpoint;
     Gateway.clientID := clientID;
     Gateway.clientSecret := clientSecret;
     Gateway.scope := scope;
     Gateway.accessToken := "";
     Gateway.expiresAt := -62135596800 * Second |}.

(** The cached token is of no use at the instant [now]: there is none, or it
    expires within 30 seconds. *)
Definition stale (c : Gateway.OAuthClient) (now : Z) : Prop :=
  Gateway.accessToken c = "" ∨ Gateway.expiresAt c ≤ now + 30 * Second.

(** The requests of a caller: a gateway call with an [Authorization] header of
    its own. *)
Definition gatewayCall : Transport.request :=
  {| Transport.Method := "POST";
     Transport.URL := "https://gateway.example.com/chat/completions";
     Transport.Header := {[ "Authorization" := ["Bearer of-the-caller"];
                            "Content-Type" := ["application/json"] ]};
     Transport.Body := "{...}" |}.

Definition transportOver (s : Gateway.state) : Transport.state :=
  {| Transport.oauth := s;
     Transport.baseTransport := λ req,
       ok {| Transport.StatusCode := 200; Transport.ResponseBody := "{...}" |};
     Transport.forwarded := [] |}.

(** A token endpoint that is down. *)
Definition endpointDown : Gateway.state :=
  {| Gateway.client := NewOAuthClient "https://idp.example.com/oauth2/token"
                                      "song-writer" "hunter2" "";
     Gateway.env :=
       {| Gateway.clock := λ k, (1700000000 + Z.of_nat k) * Second;
          Gateway.ticks := 0;
          Gateway.endpoint := λ _, Gateway.doFails "connection refused";
          Gateway.exchanges := 0;
          Gateway.posted := 0;
          Gateway.racing := None;
          Gateway.log := [] |} |}.

(** A token endpoint that is no URL: the request cannot be built. *)
Definition unbuildable : Gateway.state :=
  {| Gateway.client := NewOAuthClient "idp.example.com:oauth2" "song-writer" "hunter2" "";
     Gateway.env :=
       {| Gateway.clock := λ k, (1700000000 + Z.of_nat k) * Second;
          Gateway.ticks := 0;
          Gateway.endpoint := λ _, Gateway.createFails "missing protocol scheme";
          Gateway.exchanges := 0;
          Gateway.posted := 0;
          Gateway.racing := None;
          Gateway.log := [] |} |}.

(** A client without token while another goroutine stores one that is good
    for an hour. *)
Definition contended : Gateway.state :=
  {| Gateway.client := NewOAuthClient "https://idp.example.com/oauth2/token"
                                      "song-writer" "hunter2" "";
     Gateway.env :=
       {| Gateway.clock := λ k, (1700000000 + Z.of_nat k) * Second;
          Gateway.ticks := 0;
          Gateway.endpoint := λ _, Gateway.doFails "connection refused";
          Gateway.exchanges := 0;
          Gateway.posted := 0;
          Gateway.racing := Some ("tok-of-the-other", 1700003600 * Second);
          Gateway.log := [] |} |}.

(** A request with a genre in capitals and an emotion nobody supports. *)
Definition gloomyRequest : LyricsRequest :=
  {| Keywords := ["rain"]; Genre := "ROCK"; Emotion := "gloomy";
     Language := "klingon";
     Structure_ := {| Verses := 2; Chorus := true; Bridge := false |} |}.

(** * Theorems *)

(** ** The string functions on small inputs *)

Example Split_lines : Split ("a" +:+ nl +:+ "b" +:+ nl) newline = ["a"; "b"; ""].
Proof. reflexivity. Qed.

Example Split_empty : Split "" newline = [""].
Proof. reflexivity. Qed.

Example Join_lines : Join ["a"; "b"; "c"] ", " = "a, b, c".
Proof. reflexivity. Qed.

Example Trim_brackets : Trim "[[Verse 1]]" "[]" = "Verse 1".
Proof. reflexivity. Qed.

Example HasSuffix_bracket :
  HasSuffix "[Chorus]" "]" = true ∧ HasSuffix "[Chorus] x" "]" = false.
Proof. split; reflexivity. Qed.

Example TrimPrefix_title : TrimPrefix "title: love song" "title:" = " love song".
Proof. reflexivity. Qed.

Example TrimSpace_ascii : TrimSpace ("  [Chorus] " +:+ String "013"%char "") = "[Chorus]".
Proof. reflexivity. Qed.

Example ToLower_ascii : ToLower "Title: Love Song [R&B]" = "title: love song [r&b]".
Proof. reflexivity. Qed.

Example Contains_bearer :
  Contains (ToLower "Authorization: Bearer abc") "bearer " = true.
Proof. reflexivity. Qed.

(** ** Facts about the loop of [parseLyrics] *)

Section parser_facts.
Context {tables : UnicodeTables}.

Lemma bracketed_nonempty line : bracketed line = true → line ≠ "".
Proof. intros Hb ->. discriminate Hb. Qed.

Lemma scanLines_app st l1 l2 :
  scanLines st (l1 ++ l2) = scanLines (scanLines st l1) l2.
Proof. apply fold_left_app. Qed.

Lemma scanLines_cons st l ls :
  scanLines st (l :: ls) = scanLines (scanLine st l) ls.
Proof. reflexivity. Qed.

Lemma scanLine_blank st line : isBlank line → scanLine st line = st.
Proof. unfold isBlank, scanLine. intros ->. reflexivity. Qed.

Lemma scanLines_blank st lines : Forall isBlank lines → scanLines st lines = st.
Proof.
  intros Hall. revert st.
  induction Hall as [|l ls Hl _ IH]; intros st; [reflexivity|].
  rewrite scanLines_cons, scanLine_blank by assumption. apply IH.
Qed.

(** What a header line does to the state. *)
Lemma scanLine_header st line :
  isHeader line = true →
  scanLine st line =
    if HasPrefix (sectionNameOf line) "title:" then
      {| structure := saveSection st;
         title := TrimSpace (TrimPrefix (sectionNameOf line) "title:");
         currentSection := "";
         currentContent := currentContent st |}
    else
      {| structure := saveSection st;
         title := title st;
         currentSection := sectionNameOf line;
         currentContent := [] |}.
Proof.
  unfold isHeader, scanLine, sectionNameOf. intros Hb.
  destruct (decide (TrimSpace line = "")) as [He|_].
  - apply bracketed_nonempty in Hb. contradiction.
  - rewrite Hb. reflexivity.
Qed.

Lemma scanLine_title st line t :
  titleOf line = Some t → title (scanLine st line) = t.
Proof.
  unfold titleOf. intros Ht.
  destruct (isHeader line) eqn:Hh; [|discriminate].
  rewrite scanLine_header by assumption.
  destruct (HasPrefix (sectionNameOf line) "title:"); simpl in *;
    congruence.
Qed.

Lemma scanLine_no_title st line :
  titleOf line = None → title (scanLine st line) = title st.
Proof.
  unfold titleOf. intros Ht.
  destruct (isHeader line) eqn:Hh.
  - rewrite scanLine_header by assumption.
    destruct (HasPrefix (sectionNameOf line) "title:"); [discriminate|reflexivity].
  - unfold scanLine. unfold isHeader in Hh. rewrite Hh.
    destruct (decide _); [reflexivity|]. by destruct (decide _).
Qed.

Lemma scanLines_no_title st lines :
  Forall (λ l, titleOf l = None) lines → title (scanLines st lines) = title st.
Proof.
  intros Hall. revert st.
  induction Hall as [|l ls Hl _ IH]; intros st; [reflexivity|].
  rewrite scanLines_cons, IH. by apply scanLine_no_title.
Qed.

(** Outside a section, a line that is not a header changes nothing. *)
Lemma scanLine_closed st line :
  currentSection st = "" → isHeader line = false → scanLine st line = st.
Proof.
  unfold isHeader, scanLine. intros Hc ->.
  destruct (decide _); [reflexivity|].
  destruct (decide _) as [Hne|_]; [contradiction | reflexivity].
Qed.

Lemma scanLines_closed st lines :
  currentSection st = "" → Forall (λ l, isHeader l = false) lines →
  scanLines st lines = st.
Proof.
  intros Hc Hall. revert st Hc.
  induction Hall as [|l ls Hl _ IH]; intros st Hc; [reflexivity|].
  rewrite scanLines_cons, scanLine_closed by assumption. by apply IH.
Qed.

Lemma saveSection_closed st : currentSection st = "" → saveSection st = structure st.
Proof.
  unfold saveSection. intros Hc.
  destruct (decide _) as [[Hne _]|_]; [contradiction | reflexivity].
Qed.

Lemma saveSection_no_content st : currentContent st = [] → saveSection st = structure st.
Proof.
  unfold saveSection. intros ->. case_decide as Hd; [|reflexivity].
  destruct Hd as [_ Hlen]. simpl in Hlen. lia.
Qed.

(** After a header line the state holds nothing that a save would store. *)
Lemma saveSection_after_header st line :
  isHeader line = true →
  saveSection (scanLine st line) = structure (scanLine st line).
Proof.
  intros Hh. rewrite scanLine_header by assumption.
  destruct (HasPrefix (sectionNameOf line) "title:").
  - by apply saveSection_closed.
  - by apply saveSection_no_content.
Qed.

Lemma sameSections_save a b : sameSections a b → saveSection a = saveSection b.
Proof.
  intros (Hs & Hc & Hl). unfold saveSection.
  rewrite <- Hc, <- Hs.
  destruct (decide (currentSection a = "")) as [He|Hne].
  - rewrite !decide_False by (intros [Hne _]; contradiction). reflexivity.
  - rewrite <- (Hl Hne). reflexivity.
Qed.

Lemma sameSections_scanLine a b line :
  sameSections a b → sameSections (scanLine a line) (scanLine b line).
Proof.
  intros Hab. pose proof (sameSections_save _ _ Hab) as Hsave.
  destruct Hab as (Hs & Hc & Hl). unfold scanLine.
  destruct (decide (TrimSpace line = "")); [done|].
  destruct (bracketed (TrimSpace line)).
  - destruct (HasPrefix _ "title:"); split_and!; simpl; try done.
  - rewrite <- Hc. destruct (decide (currentSection a ≠ "")) as [Hne|];
      split_and!; simpl; try done.
    intros _. by rewrite (Hl Hne).
Qed.

Lemma sameSections_scanLines a b lines :
  sameSections a b → sameSections (scanLines a lines) (scanLines b lines).
Proof.
  revert a b. induction lines as [|l ls IH]; intros a b Hab; [done|].
  rewrite !scanLines_cons. by apply IH, sameSections_scanLine.
Qed.

(** A header, then blank lines, then a second header: the state is the one
    that the second header alone would have produced, up to [sameSections]. *)
Lemma adjacent_headers_state st h1 blanks h2 :
  isHeader h1 = true → Forall isBlank blanks → isHeader h2 = true →
  sameSections (scanLine (scanLines (scanLine st h1) blanks) h2) (scanLine st h2).
Proof.
  intros H1 Hb H2. rewrite scanLines_blank by assumption.
  rewrite (scanLine_header _ h2), (scanLine_header st h2) by assumption.
  rewrite saveSection_after_header by assumption.
  rewrite (scanLine_header st h1) by assumption.
  destruct (HasPrefix (sectionNameOf h1) "title:"),
           (HasPrefix (sectionNameOf h2) "title:");
    split_and!; simpl; done.
Qed.

(** Where the keys of the mapping come from: a key that is there after the
    loop was there before, or is the open section, or is the name of a header
    line met on the way. *)
Lemma saveSection_keys st k :
  is_Some (saveSection st !! k) →
  is_Some (structure st !! k) ∨ (k = currentSection st ∧ k ≠ "").
Proof.
  unfold saveSection. destruct (decide _) as [[Hne _]|_]; [|by left].
  destruct (decide (currentSection st = k)) as [<-|Hk].
  - intros _. by right.
  - rewrite lookup_insert_ne by assumption. by left.
Qed.

Lemma scanLines_keys st lines k :
  is_Some (saveSection (scanLines st lines) !! k) →
  is_Some (structure st !! k) ∨ (k = currentSection st ∧ k ≠ "") ∨
  Exists (λ l, isHeader l = true ∧ sectionNameOf l = k) lines.
Proof.
  revert st. induction lines as [|l ls IH]; intros st Hk.
  { apply saveSection_keys in Hk. tauto. }
  rewrite scanLines_cons in Hk. apply IH in Hk.
  destruct Hk as [Hk|[Hk|Hk]]; [| |by right; right; right].
  - destruct (isHeader l) eqn:Hh.
    + rewrite scanLine_header in Hk by assumption.
      assert (is_Some (saveSection st !! k)) as Hsave
        by (destruct (HasPrefix _ "title:"); exact Hk).
      apply saveSection_keys in Hsave. tauto.
    + left. revert Hk. unfold scanLine. unfold isHeader in Hh. rewrite Hh.
      destruct (decide _); [done|]. by destruct (decide _).
  - destruct (isHeader l) eqn:Hh.
    + rewrite scanLine_header in Hk by assumption.
      destruct (HasPrefix _ "title:"); simpl in Hk; [by destruct Hk|].
      right; right. left. by destruct Hk.
    + right; left. revert Hk. unfold scanLine. unfold isHeader in Hh. rewrite Hh.
      destruct (decide _); [done|]. by destruct (decide _).
Qed.

End parser_facts.


(** ** [parseLyrics] *)

Section parser_theorems.
Context {tables : UnicodeTables}.

Lemma wholeTextIfEmpty_nonempty text m : wholeTextIfEmpty text m ≠ ∅.
Proof.
  unfold wholeTextIfEmpty. case_decide as Hsize.
  - apply insert_non_empty.
  - intros ->. by rewrite map_size_empty in Hsize.
Qed.

Lemma wholeTextIfEmpty_empty text : wholeTextIfEmpty text ∅ = {["verse1" := text]}.
Proof. reflexivity. Qed.

Lemma sections_no_header lines :
  Forall (λ l, isHeader l = false) lines → sections lines = ∅.
Proof.
  intros Hall. unfold sections.
  rewrite scanLines_closed by done. reflexivity.
Qed.

End parser_theorems.

(** C9. Whatever the text, the empty one included, the mapping returned by
    [parseLyrics] has at least one entry. *)
Theorem parseLyrics_structure_nonempty {tables : UnicodeTables} (text : string) (req : LyricsRequest) :
  Structure (parseLyrics text req) ≠ ∅ ∧
  (0 < size (Structure (parseLyrics text req)))%nat.
Proof.
  pose proof (wholeTextIfEmpty_nonempty text (sections (Split text newline))) as Hne.
  split; [exact Hne|].
  apply map_size_non_empty_iff in Hne. simpl. lia.
Qed.

(** C5. When the loop leaves the mapping empty, the whole text is stored,
    as it is, under the one key ["verse1"]; this is so in particular when no
    line of the text is a bracketed header, and then the title is the
    default one; the title is the default one whenever no line is a title
    header. *)
Theorem parseLyrics_fallback {tables : UnicodeTables} (text : string) (req : LyricsRequest) :
  (sections (Split text newline) = ∅ →
     Structure (parseLyrics text req) = {["verse1" := text]}) ∧
  (Forall (λ l, isHeader l = false) (Split text newline) →
     Structure (parseLyrics text req) = {["verse1" := text]} ∧
     Title (parseLyrics text req) = "Untitled Song") ∧
  (Forall (λ l, titleOf l = None) (Split text newline) →
     Title (parseLyrics text req) = "Untitled Song").
Proof.
  split_and!.
  - intros Hempty. simpl. rewrite Hempty. apply wholeTextIfEmpty_empty.
  - intros Hall. simpl. split.
    + rewrite sections_no_header by assumption. apply wholeTextIfEmpty_empty.
    + rewrite scanLines_closed by done. reflexivity.
  - intros Hall. simpl. by rewrite scanLines_no_title.
Qed.

Lemma parseLyrics_fallback_witness :
  Forall (λ l, isHeader l = false) (Split plainText newline) ∧
  Structure (parseLyrics plainText anyRequest) = {["verse1" := plainText]} ∧
  Title (parseLyrics plainText anyRequest) = "Untitled Song".
Proof.
  assert (Hall : Forall (λ l, isHeader l = false) (Split plainText newline)).
  { repeat constructor. }
  split; [exact Hall|].
  exact (proj1 (proj2 (parseLyrics_fallback plainText anyRequest)) Hall).
Defined.

(** C10. The title returned is the one set by the last title header of the
    text: a title header overwrites whatever title was stored before it, and
    the function has no failure. *)
Theorem parseLyrics_last_title_wins {tables : UnicodeTables}
    (text : string) (req : LyricsRequest) (pre : list string) (h : string)
    (post : list string) (t : string) :
  Split text newline = pre ++ h :: post →
  titleOf h = Some t →
  Forall (λ l, titleOf l = None) post →
  Title (parseLyrics text req) = t.
Proof.
  intros Hsplit Ht Hpost. simpl. rewrite Hsplit.
  rewrite scanLines_app, scanLines_cons.
  rewrite scanLines_no_title by assumption.
  by apply scanLine_title.
Qed.

Lemma parseLyrics_last_title_wins_witness :
  Title (parseLyrics twoTitles anyRequest) = "second".
Proof.
  apply (parseLyrics_last_title_wins twoTitles anyRequest
           ["[Title: First]"] "[Title: Second]" ["[Verse 1]"; "la la"] "second").
  - reflexivity.
  - reflexivity.
  - repeat constructor.
Defined.

(** C4. A header line followed by a second header line, with nothing but
    blank lines between the two, gives the mapping no entry: the second
    header saves nothing, the mapping built from the text is the one built
    from the same lines without the first header, and the name of the first
    header is no key of the result unless another header line bears it or it
    is the key of the fallback. Parsing ["[Verse 1]\n[Chorus]\ntext"] gives
    the single key ["chorus"]. *)
Theorem parseLyrics_adjacent_headers :
  (∀ (tables : UnicodeTables) (text : string) (req : LyricsRequest)
     (pre : list string) (h1 : string) (blanks : list string) (h2 : string)
     (post : list string),
     Split text newline = pre ++ h1 :: blanks ++ h2 :: post →
     isHeader h1 = true → Forall isBlank blanks → isHeader h2 = true →
     structure (scanLines scanStart (pre ++ h1 :: blanks ++ [h2])) =
       structure (scanLines scanStart (pre ++ [h1])) ∧
     Structure (parseLyrics text req) =
       wholeTextIfEmpty text (sections (pre ++ h2 :: post)) ∧
     (Forall (λ l, isHeader l = true → sectionNameOf l ≠ sectionNameOf h1)
             (pre ++ h2 :: post) →
      sectionNameOf h1 ≠ "verse1" →
      Structure (parseLyrics text req) !! sectionNameOf h1 = None)) ∧
  (∀ req : LyricsRequest,
     Structure (parseLyrics twoHeaders req) = {["chorus" := "text"]} ∧
     Structure (parseLyrics twoHeaders req) !! "verse 1" = None).
Proof.
  split.
  - intros tables text req pre h1 blanks h2 post Hsplit H1 Hb H2.
    assert (Structure (parseLyrics text req) =
            wholeTextIfEmpty text (sections (pre ++ h2 :: post))) as Herase.
    { simpl. f_equal. rewrite Hsplit. unfold sections.
      apply sameSections_save.
      rewrite !scanLines_app, !scanLines_cons, scanLines_app, scanLines_cons.
      apply sameSections_scanLines.
      by apply adjacent_headers_state. }
    split_and!; [|exact Herase|].
    + rewrite !scanLines_app, !scanLines_cons. simpl.
      rewrite scanLines_app. simpl.
      rewrite scanLines_blank by assumption.
      rewrite (scanLine_header _ h2) by assumption.
      rewrite saveSection_after_header by assumption.
      by destruct (HasPrefix (sectionNameOf h2) "title:").
    + intros Hothers Hdefault. rewrite Herase.
      assert (sections (pre ++ h2 :: post) !! sectionNameOf h1 = None) as Hnone.
      { apply eq_None_not_Some. intros Hsome.
        apply scanLines_keys in Hsome as [Hsome|[[Hcur Hne]|Hsome]].
        - simpl in Hsome. rewrite lookup_empty in Hsome. by destruct Hsome.
        - simpl in Hcur. contradiction.
        - apply Exists_exists in Hsome as (l & Hin & Hh & Hname).
          rewrite Forall_forall in Hothers. by apply (Hothers l Hin Hh). }
      unfold wholeTextIfEmpty. destruct (decide _); [|exact Hnone].
      rewrite lookup_insert_ne by done. exact Hnone.
  - intros req. split; vm_compute; reflexivity.
Qed.

Lemma parseLyrics_adjacent_headers_witness :
  sectionNameOf "[Verse 1]" = "verse 1" ∧
  Structure (parseLyrics twoHeaders anyRequest) =
    wholeTextIfEmpty twoHeaders (sections ["[Chorus]"; "text"]) ∧
  Structure (parseLyrics twoHeaders anyRequest) !! sectionNameOf "[Verse 1]" = None.
Proof.
  split; [reflexivity|].
  assert (Hpair :
    Structure (parseLyrics twoHeaders anyRequest) =
      wholeTextIfEmpty twoHeaders (sections ([] ++ "[Chorus]" :: ["text"])) ∧
    (Forall (λ l, isHeader l = true → sectionNameOf l ≠ sectionNameOf "[Verse 1]")
            ([] ++ "[Chorus]" :: ["text"]) →
     sectionNameOf "[Verse 1]" ≠ "verse1" →
     Structure (parseLyrics twoHeaders anyRequest) !! sectionNameOf "[Verse 1]" = None)).
  { refine (proj2 (proj1 parseLyrics_adjacent_headers asciiTables twoHeaders
                     anyRequest [] "[Verse 1]" [] "[Chorus]" ["text"] _ _ _ _)).
    - reflexivity.
    - reflexivity.
    - constructor.
    - reflexivity. }
  destruct Hpair as [Herase Hkey]. split; [exact Herase|].
  apply Hkey.
  - repeat constructor; intros _; vm_compute; discriminate.
  - vm_compute. discriminate.
Defined.

(** C1. On the text of the example the sections are as the specification
    has them, but the title comes back in lower case: the whole inside of the
    brackets is lowered before ["title:"] is looked for, and the title is cut
    out of the lowered string. *)
Theorem parseLyrics_love_song (req : LyricsRequest) :
  parseLyrics loveSong req =
    {| Title := "love song";
       Structure := {[ "verse 1" := "line a" +:+ nl +:+ "line b";
                       "chorus" := "line c" ]} |} ∧
  Title (parseLyrics loveSong req) ≠ "Love Song".
Proof. split; [vm_compute; reflexivity | vm_compute; discriminate]. Qed.

(** ** The handler *)

(** C6. The chorus half holds and the verses half is out of reach. A
    request that the binding lets through and that passes the three look-ups
    reaches the service with [Chorus] set, whatever was submitted; its
    [Verses], between 1 and 4, are the ones submitted. A body without
    structure, or with 0 verses, is answered by the binding with status 400
    before the statement that would make the verses 2. *)
Theorem generateLyrics_verses_default_unreachable
    {tables : UnicodeTables} {iteration : MapIteration} {E : Type}
    (explain : LyricsRequest → string)
    (service : LyricsRequest → result E LyricsResponse) (req : LyricsRequest) :
  let bound := ShouldBindJSON explain (ok req) in
  (Verses (Structure_ req) = 0 →
     generateLyrics service bound = badRequest "invalid_request" (explain req)) ∧
  (bindingPasses req = true → accepted req = true →
     let req' := setDefaultStructure req in
     generateLyrics service bound = respond (service req') ∧
     Chorus (Structure_ req') = true ∧
     Verses (Structure_ req') = Verses (Structure_ req) ∧
     1 ≤ Verses (Structure_ req') ≤ 4 ∧
     Bridge (Structure_ req') = Bridge (Structure_ req) ∧
     (Keywords req', Genre req', Emotion req', Language req') =
       (Keywords req, Genre req, Emotion req, Language req)).
Proof.
  cbn zeta. split.
  - intros Hz. unfold ShouldBindJSON, bindingPasses.
    rewrite (bool_decide_eq_false_2 (1 ≤ Verses (Structure_ req) ≤ 4)) by lia.
    rewrite andb_false_r. reflexivity.
  - intros Hbind Hacc. unfold ShouldBindJSON. rewrite Hbind.
    assert (1 ≤ Verses (Structure_ req) ≤ 4) as Hrange.
    { unfold bindingPasses in Hbind. apply andb_prop in Hbind as [_ Hv].
      by apply bool_decide_eq_true_1 in Hv. }
    unfold accepted in Hacc.
    apply andb_prop in Hacc as [Hacc Hl]. apply andb_prop in Hacc as [Hg He].
    split.
    { unfold generateLyrics. rewrite Hg, He, Hl. reflexivity. }
    destruct req as [keywords genre emotion language [verses chorus bridge]].
    unfold setDefaultStructure. simpl in *.
    rewrite decide_False by lia.
    destruct chorus; simpl; split_and!; (reflexivity || lia).
Qed.

Lemma generateLyrics_verses_default_unreachable_witness :
  generateLyrics (λ _, @err unit LyricsResponse tt)
                 (ShouldBindJSON (λ _, "Verses failed on the min tag") (ok anyRequest)) =
    badRequest "invalid_request" "Verses failed on the min tag" ∧
  Chorus (Structure_ quietRequest) = false ∧
  Chorus (Structure_ (setDefaultStructure quietRequest)) = true ∧
  Verses (Structure_ (setDefaultStructure quietRequest)) = 3.
Proof.
  pose proof (generateLyrics_verses_default_unreachable
                (λ _, "Verses failed on the min tag")
                (λ _, @err unit LyricsResponse tt) anyRequest) as [Hzero _].
  pose proof (generateLyrics_verses_default_unreachable
                (λ _, "Verses failed on the min tag")
                (λ _, @err unit LyricsResponse tt) quietRequest) as [_ Hpass].
  assert (bindingPasses quietRequest = true) as Hbind by reflexivity.
  assert (accepted quietRequest = true) as Hacc by reflexivity.
  destruct (Hpass Hbind Hacc) as (_ & Hchorus & Hverses & _).
  split_and!; [apply Hzero; reflexivity | reflexivity | exact Hchorus | exact Hverses].
Defined.

(** ** [sanitizeForLogging] *)

(** Membership in a list that is written out. *)
Ltac listed :=
  repeat match goal with
         | Hin : _ ∈ _ |- _ => apply list_elem_of_In in Hin; simpl in Hin
         end;
  try apply list_elem_of_In; simpl; tauto.

Section sanitize_facts.
Context {tables : UnicodeTables}.

Lemma existsb_prefix (input prefix : string) (known : list string) :
  prefix ∈ known → HasPrefix (ToLower input) prefix = true →
  existsb (λ p, HasPrefix (ToLower input) p) known = true.
Proof.
  intros Hin Hp. apply existsb_exists. exists prefix.
  split; [by apply list_elem_of_In | exact Hp].
Qed.

Lemma direct_marker (input prefix : string) :
  prefix ∈ ["sk-"; "pk-"; "api_"; "token_"] →
  HasPrefix (ToLower input) prefix = true →
  Direct.sanitizeForLogging input = "[REDACTED_API_KEY]".
Proof.
  intros Hin Hp. unfold Direct.sanitizeForLogging.
  rewrite (existsb_prefix input prefix) by assumption.
  destruct (Contains _ _); [reflexivity|]. destruct (HasPrefix _ "sk-"); reflexivity.
Qed.

Lemma gateway_marker_prefix (input prefix : string) :
  prefix ∈ ["sk-"; "pk-"; "api_"; "token_"; "ey"; "access_token"] →
  HasPrefix (ToLower input) prefix = true →
  Gateway.sanitizeForLogging input ∈ Gateway.markers.
Proof.
  intros Hin Hp. unfold Gateway.sanitizeForLogging, Gateway.markers.
  rewrite (existsb_prefix input prefix) by assumption.
  destruct (Contains _ _); [|destruct (HasPrefix _ "sk-")];
    listed.
Qed.

Lemma gateway_marker_credentials (input : string) :
  (20 < String.length input)%nat →
  Contains (ToLower input) "secret" = true ∨ Contains (ToLower input) "client" = true →
  Gateway.sanitizeForLogging input ∈ Gateway.markers.
Proof.
  intros Hlen Hc. unfold Gateway.sanitizeForLogging, Gateway.markers.
  rewrite bool_decide_eq_true_2 by assumption.
  assert (Contains (ToLower input) "secret" || Contains (ToLower input) "client" = true)
    as -> by (destruct Hc as [-> | ->]; [reflexivity | apply orb_true_r]).
  destruct (Contains _ "bearer "); [|destruct (HasPrefix _ "sk-"); [|destruct (existsb _ _)]];
    listed.
Qed.

End sanitize_facts.

(** C8, as the code has it. Both versions replace a string that contains
    ["bearer "] or starts with [sk-], [pk-], [api_] or [token_], letter case
    apart, by a fixed marker. The gateway version does so as well for a string
    that starts with [ey] or [access_token] and for a string of more than 20
    bytes that contains ["secret"] or ["client"]; the direct version returns
    what is neither a bearer value nor prefixed as it came. *)
Theorem sanitizeForLogging_redacts {tables : UnicodeTables} (input : string) :
  (Contains (ToLower input) "bearer " = true →
     Direct.sanitizeForLogging input = "[REDACTED_API_KEY]" ∧
     Gateway.sanitizeForLogging input = "[REDACTED_BEARER_TOKEN]") ∧
  (∀ prefix, prefix ∈ ["sk-"; "pk-"; "api_"; "token_"] →
     HasPrefix (ToLower input) prefix = true →
     Direct.sanitizeForLogging input = "[REDACTED_API_KEY]" ∧
     Gateway.sanitizeForLogging input ∈ Gateway.markers) ∧
  (∀ prefix, prefix ∈ ["ey"; "access_token"] →
     HasPrefix (ToLower input) prefix = true →
     Gateway.sanitizeForLogging input ∈ Gateway.markers) ∧
  ((20 < String.length input)%nat →
     Contains (ToLower input) "secret" = true ∨ Contains (ToLower input) "client" = true →
     Gateway.sanitizeForLogging input ∈ Gateway.markers) ∧
  (Contains (ToLower input) "bearer " = false →
     (∀ prefix, prefix ∈ ["sk-"; "pk-"; "api_"; "token_"] →
        HasPrefix (ToLower input) prefix = false) →
     Direct.sanitizeForLogging input = input).
Proof.
  split_and!.
  - intros Hb. unfold Direct.sanitizeForLogging, Gateway.sanitizeForLogging.
    rewrite Hb. done.
  - intros prefix Hin Hp. split.
    + by apply (direct_marker input prefix).
    + apply (gateway_marker_prefix input prefix); [listed | done].
  - intros prefix Hin Hp.
    apply (gateway_marker_prefix input prefix); [listed | done].
  - apply gateway_marker_credentials.
  - intros Hb Hnone. unfold Direct.sanitizeForLogging. rewrite Hb.
    rewrite (Hnone "sk-") by listed. simpl.
    rewrite !Hnone by listed. reflexivity.
Qed.

Lemma sanitizeForLogging_redacts_witness :
  (20 < String.length secretNote)%nat ∧
  Contains (ToLower secretNote) "secret" = true ∧
  Gateway.sanitizeForLogging secretNote ∈ Gateway.markers.
Proof.
  assert (Hlen : (20 < String.length secretNote)%nat) by (vm_compute; lia).
  assert (Hc : Contains (ToLower secretNote) "secret" = true) by reflexivity.
  split_and!; [exact Hlen | exact Hc |].
  exact (proj1 (proj2 (proj2 (proj2 (sanitizeForLogging_redacts secretNote))))
           Hlen (or_introl Hc)).
Defined.

(** C8 fails on the direct version: a string of 28 bytes that contains
    ["secret"] and ["client"] is returned as it is. *)
Lemma sanitizeForLogging_direct_keeps_secret :
  (20 < String.length secretNote)%nat ∧
  Contains (ToLower secretNote) "secret" = true ∧
  Contains (ToLower secretNote) "client" = true ∧
  Direct.sanitizeForLogging secretNote = secretNote.
Proof. split_and!; [vm_compute; lia | reflexivity..]. Qed.

(** ** The token cache *)

Module GatewayFacts.
Import Gateway.

Lemma wrap64_small (z : Z) : - 2 ^ 63 ≤ z < 2 ^ 63 → wrap64 z = z.
Proof. intros Hz. unfold wrap64. rewrite Z.mod_small; lia. Qed.

Lemma seconds_small (n : Z) : 0 ≤ n ≤ 9223372036 → seconds n = n * Second.
Proof. intros Hn. unfold seconds, Second. apply wrap64_small. lia. Qed.

Lemma seconds_default : seconds 3600 = 3600 * Second.
Proof. reflexivity. Qed.

(** Runs the monadic code of the client on a state that is written out. *)
Ltac run :=
  cbv [haveValidToken requestNewToken GetAccessToken fail announce
       mbind M_bind mret M_ret getClient timeNow fateOfRequest httpDo emit store];
  cbn.

Section oauth_facts.
Context {tables : UnicodeTables}.

(** The check of the cached token reads the client and the clock and changes
    neither the client nor the endpoint; when it says yes, the token is there
    and the clock value it read is more than 30 seconds before the expiry. *)
Lemma haveValidToken_spec (s : state) :
  let r := haveValidToken s in
  client r.2 = client s ∧
  endpoint (env r.2) = endpoint (env s) ∧
  exchanges (env r.2) = exchanges (env s) ∧
  racing (env r.2) = racing (env s) ∧
  (r.1 = true →
     accessToken (client s) ≠ "" ∧
     lastReading r.2 + 30 * Second < expiresAt (client s)).
Proof.
  destruct s as [c w]. unfold lastReading. run.
  destruct (decide (accessToken c ≠ "")) as [Hne|He]; cbn.
  - split_and!; try reflexivity.
    intros Hb. apply bool_decide_eq_true_1 in Hb. done.
  - split_and!; try reflexivity. discriminate.
Qed.

Lemma handover_spec (s : state) :
  endpoint (env (handover s).2) = endpoint (env s) ∧
  exchanges (env (handover s).2) = exchanges (env s).
Proof.
  destruct s as [c w]. unfold handover. cbn.
  destruct (racing w) as [[token expiry]|]; cbn; done.
Qed.

(** The outcome of an exchange, case by case. *)
Lemma requestNewToken_spec (s : state) :
  let x := endpoint (env s) (exchanges (env s)) in
  let r := requestNewToken s in
  exchanges (env r.2) = S (exchanges (env s)) ∧
  match x with
  | responds code raw (ok tokenResp) =>
      if decide (Error tokenResp = "" ∧ code = 200 ∧ AccessToken tokenResp ≠ "")
      then r.1 = ok (AccessToken tokenResp) ∧
           accessToken (client r.2) = AccessToken tokenResp ∧
           expiresAt (client r.2) = lastReading r.2 + seconds (lifetime tokenResp)
      else (∃ e, r.1 = err e) ∧ client r.2 = client s
  | _ => (∃ e, r.1 = err e) ∧ client r.2 = client s
  end.
Proof.
  destruct s as [c w]. unfold lastReading, lifetime. run.
  destruct (endpoint w (exchanges w)) as [cause|cause|cause|code raw [tokenResp|cause]];
    cbn; try (split; [reflexivity | split; [eexists; reflexivity | reflexivity]]).
  destruct (decide (Error tokenResp ≠ "")) as [Herr|Herr]; cbn.
  { rewrite decide_False by (intros (He & _); contradiction).
    split; [reflexivity | split; [eexists; reflexivity | reflexivity]]. }
  destruct (decide (code ≠ 200)) as [Hcode|Hcode]; cbn.
  { rewrite decide_False by (intros (_ & Hc & _); contradiction).
    split; [reflexivity | split; [eexists; reflexivity | reflexivity]]. }
  destruct (decide (AccessToken tokenResp = "")) as [Htok|Htok]; cbn.
  { rewrite decide_False by (intros (_ & _ & Ht); contradiction).
    split; [reflexivity | split; [eexists; reflexivity | reflexivity]]. }
  rewrite decide_True.
  - split_and!; reflexivity.
  - split_and!; [by apply dec_stable | by apply dec_stable | done].
Qed.

End oauth_facts.


(** C2, as the code has it. A successful exchange stores, as the expiry, the
    clock value it reads plus the life time of the token: [expires_in] seconds
    when the answer gives a positive value (up to the 9223372036 seconds an
    [int64] duration can hold), and 3600 seconds when it gives none or a
    value that is not positive. *)
Theorem requestNewToken_expiry {tables : UnicodeTables} (s : state) (token : string) :
  (requestNewToken s).1 = ok token →
  ∃ code raw tokenResp,
    endpoint (env s) (exchanges (env s)) = responds code raw (ok tokenResp) ∧
    let s' := (requestNewToken s).2 in
    expiresAt (client s') = lastReading s' + seconds (lifetime tokenResp) ∧
    (0 < ExpiresIn tokenResp ≤ 9223372036 →
       expiresAt (client s') = lastReading s' + ExpiresIn tokenResp * Second) ∧
    (ExpiresIn tokenResp ≤ 0 →
       expiresAt (client s') = lastReading s' + 3600 * Second).
Proof.
  intros Hok. destruct (requestNewToken_spec s) as [_ Hcase].
  destruct (endpoint (env s) (exchanges (env s)))
    as [cause|cause|cause|code raw [tokenResp|cause]];
    try (destruct Hcase as [[e He] _]; rewrite He in Hok; discriminate).
  destruct (decide _) as [_|_];
    [|destruct Hcase as [[e He] _]; rewrite He in Hok; discriminate].
  destruct Hcase as (_ & _ & Hexp).
  exists code, raw, tokenResp. split; [reflexivity|]. cbn zeta.
  rewrite Hexp. unfold lifetime. split_and!; [reflexivity | |].
  - intros Hpos. rewrite decide_False by lia. rewrite seconds_small by lia.
    reflexivity.
  - intros Hneg. rewrite decide_True by assumption. reflexivity.
Qed.

(** C3, as the code has it. A token that [GetAccessToken] returns is the one
    the client holds afterwards. When it comes from the cache (no token
    request was started), the clock value the check read is more than 30
    seconds before the expiry. When it was just exchanged, its expiry is the
    clock value read plus its life time, so that the 30 seconds are there
    when the life time is more than 30 seconds. *)
Theorem GetAccessToken_buffer {tables : UnicodeTables} (s : state) (token : string) :
  (GetAccessToken s).1 = ok token →
  let s' := (GetAccessToken s).2 in
  token = accessToken (client s') ∧
  ((exchanges (env s') = exchanges (env s) ∧
    lastReading s' + 30 * Second < expiresAt (client s')) ∨
   (exchanges (env s') = S (exchanges (env s)) ∧
    ∃ code raw tokenResp,
      endpoint (env s) (exchanges (env s)) = responds code raw (ok tokenResp) ∧
      token = AccessToken tokenResp ∧
      expiresAt (client s') = lastReading s' + seconds (lifetime tokenResp) ∧
      (30 < lifetime tokenResp ≤ 9223372036 →
         lastReading s' + 30 * Second < expiresAt (client s')))).
Proof.
  intros Hok. cbn zeta.
  destruct (GetAccessToken s) as [res s'] eqn:Hrun. simpl in Hok. subst res.
  unfold GetAccessToken in Hrun. unfold mbind at 1, M_bind at 1 in Hrun.
  pose proof (haveValidToken_spec s) as (Hc1 & He1 & Hx1 & _ & Hv1).
  destruct (haveValidToken s) as [valid1 s1]. simpl in *.
  destruct valid1.
  { injection Hrun as <- <-. split; [reflexivity|]. left.
    destruct (Hv1 eq_refl) as [_ Hlt]. rewrite Hc1. by split. }
  clear Hv1. unfold mbind at 1, M_bind at 1 in Hrun.
  pose proof (handover_spec s1) as (He2 & Hx2).
  destruct (handover s1) as [[] s2]. simpl in *.
  unfold mbind at 1, M_bind at 1 in Hrun.
  pose proof (haveValidToken_spec s2) as (Hc3 & He3 & Hx3 & _ & Hv3).
  destruct (haveValidToken s2) as [valid2 s3]. simpl in *.
  destruct valid2.
  { injection Hrun as <- <-. split; [reflexivity|]. left.
    destruct (Hv3 eq_refl) as [_ Hlt]. rewrite Hc3. split; [congruence | done]. }
  clear Hv3.
  assert (endpoint (env s3) (exchanges (env s3)) = endpoint (env s) (exchanges (env s)))
    as Hsame by congruence.
  pose proof (requestNewToken_spec s3) as [Hcount Hcase]. simpl in *.
  rewrite Hsame, Hrun in Hcase. rewrite Hrun in Hcount. simpl in *.
  destruct (endpoint (env s) (exchanges (env s)))
    as [cause|cause|cause|code raw [tokenResp|cause]];
    try (destruct Hcase as [[e He] _]; discriminate).
  destruct (decide _) as [_|_]; [|destruct Hcase as [[e He] _]; discriminate].
  destruct Hcase as (Hr & Hstored & Hexp).
  injection Hr as ->.
  split; [by rewrite Hstored|]. right.
  split; [congruence|]. exists code, raw, tokenResp.
  split_and!; [reflexivity | reflexivity | exact Hexp |].
  intros Hlife. rewrite Hexp, seconds_small by lia. unfold Second. lia.
Qed.


Lemma requestNewToken_expiry_witness :
  (requestNewToken (coldStart "60" 60)).1 = ok "tok" ∧
  expiresAt (client (requestNewToken (coldStart "60" 60)).2) =
    lastReading (requestNewToken (coldStart "60" 60)).2 + 60 * Second.
Proof.
  assert (Hok : (requestNewToken (coldStart "60" 60)).1 = ok "tok") by reflexivity.
  split; [exact Hok|].
  destruct (requestNewToken_expiry (coldStart "60" 60) "tok" Hok)
    as (code & raw & tokenResp & Hx & _ & Hpos & _).
  cbn in Hx. injection Hx as _ _ <-. apply Hpos. cbn. lia.
Defined.

(** C2 fails at [expires_in] = 60: the token expires 60 seconds after the
    clock value read, not 3600 seconds after it. *)
Lemma short_lived_token_expiry :
  let r := requestNewToken (coldStart "60" 60) in
  r.1 = ok "tok" ∧
  expiresAt (client r.2) = lastReading r.2 + 60 * Second ∧
  expiresAt (client r.2) ≠ lastReading r.2 + Z.max 60 3600 * Second.
Proof. split_and!; [reflexivity | reflexivity | discriminate]. Qed.

Lemma GetAccessToken_buffer_witness :
  (GetAccessToken (coldStart "60" 60)).1 = ok "tok" ∧
  "tok" = accessToken (client (GetAccessToken (coldStart "60" 60)).2).
Proof.
  assert (Hok : (GetAccessToken (coldStart "60" 60)).1 = ok "tok") by reflexivity.
  split; [exact Hok|].
  exact (proj1 (GetAccessToken_buffer (coldStart "60" 60) "tok" Hok)).
Defined.

(** C3 fails at [expires_in] = 10: the token just exchanged is returned
    although it expires 10 seconds after the clock value read. *)
Lemma GetAccessToken_returns_expiring_token :
  let r := GetAccessToken (coldStart "10" 10) in
  r.1 = ok "tok" ∧
  expiresAt (client r.2) = lastReading r.2 + 10 * Second ∧
  ¬ (lastReading r.2 + 30 * Second < expiresAt (client r.2)).
Proof. split_and!; [reflexivity | reflexivity | vm_compute; discriminate]. Qed.

End GatewayFacts.

(** * Further properties of the code *)

(** ** [countWords] *)

Lemma append_cons (c : ascii) (s t : string) : String c s +:+ t = String c (s +:+ t).
Proof. reflexivity. Qed.

Lemma append_nil (t : string) : "" +:+ t = t.
Proof. reflexivity. Qed.

Lemma startsWithSpace_append (a : string) (c : ascii) (b : string) :
  Ascii.is_space c = true →
  startsWithSpace (a +:+ String c b) = startsWithSpace a.
Proof. intros Hc. destruct a as [|d a]; [exact Hc | reflexivity]. Qed.

Lemma Fields_starts (s : string) : startsWithSpace s = false → Fields s ≠ [].
Proof.
  destruct s as [|c rest]; [discriminate|]. simpl. intros ->.
  destruct (startsWithSpace rest); [discriminate|].
  destruct (Fields rest); discriminate.
Qed.

Lemma Fields_append_space (a : string) (c : ascii) (b : string) :
  Ascii.is_space c = true →
  Fields (a +:+ String c b) = Fields a ++ Fields b.
Proof.
  intros Hc. induction a as [|x a IH].
  - rewrite append_nil. simpl. rewrite Hc. reflexivity.
  - rewrite append_cons. simpl.
    destruct (Ascii.is_space x); [exact IH|].
    rewrite startsWithSpace_append by assumption.
    destruct (startsWithSpace a) eqn:Hs.
    + rewrite IH. reflexivity.
    + rewrite IH. apply Fields_starts in Hs.
      destruct (Fields a) as [|field fields]; [contradiction | reflexivity].
Qed.

Lemma Fields_allSpace (s : string) : Fields s = [] ↔ allSpace s = true.
Proof.
  induction s as [|c rest IH]; [done|]. simpl.
  destruct (Ascii.is_space c); simpl; [exact IH|].
  split; [|discriminate].
  destruct (startsWithSpace rest); [discriminate|].
  destruct (Fields rest); discriminate.
Qed.

Lemma Fields_word (w : string) : isWord w → Fields w = [w].
Proof.
  intros [Hne Hns]. induction w as [|c rest IH]; [contradiction|].
  simpl in *. apply andb_prop in Hns as [Hc Hrest].
  apply negb_true_iff in Hc. rewrite Hc.
  destruct rest as [|d rest']; [reflexivity|].
  assert (Ascii.is_space d = false) as Hd.
  { simpl in Hrest. apply andb_prop in Hrest as [Hd _]. by apply negb_true_iff. }
  cbn [startsWithSpace]. rewrite Hd.
  rewrite IH by done. reflexivity.
Qed.

Lemma Join_cons_cons (e e' : string) (rest : list string) (sep : string) :
  Join (e :: e' :: rest) sep = e +:+ sep +:+ Join (e' :: rest) sep.
Proof. reflexivity. Qed.

Lemma Fields_Join (words : list string) :
  Forall isWord words → Fields (Join words " ") = words.
Proof.
  induction 1 as [|w ws Hw Hws IH]; [reflexivity|].
  destruct ws as [|w' ws].
  - by apply Fields_word.
  - rewrite Join_cons_cons.
    change (" " +:+ Join (w' :: ws) " ") with (String " "%char (Join (w' :: ws) " ")).
    rewrite Fields_append_space by reflexivity.
    rewrite IH, Fields_word by assumption. reflexivity.
Qed.

(** X1. The count is additive over a white space byte: the words of
    [a], a white space byte and [b] put together are the words of [a] and
    the words of [b]; so leading, trailing and repeated white space counts
    for nothing. *)
Theorem countWords_additive (a : string) (c : ascii) (b : string) :
  isASCII a = true → isASCII b = true → Ascii.is_space c = true →
  countWords (a +:+ String c b) = countWords a + countWords b.
Proof.
  intros _ _ Hc. unfold countWords.
  rewrite Fields_append_space by assumption.
  rewrite length_app. lia.
Qed.

Lemma countWords_additive_witness :
  countWords ("hello," +:+ String newline "world! how") = 1 + 2.
Proof.
  exact (countWords_additive "hello," newline "world! how" eq_refl eq_refl eq_refl).
Defined.

(** X2. The count is 0 exactly for the texts made of white space only,
    the empty text among them. *)
Theorem countWords_zero (text : string) :
  isASCII text = true →
  (countWords text = 0 ↔ allSpace text = true).
Proof.
  intros _. unfold countWords. rewrite <- Fields_allSpace.
  destruct (Fields text); simpl; split; intros; (done || lia).
Qed.

Lemma countWords_zero_witness :
  countWords ("  " +:+ nl +:+ " ") = 0.
Proof.
  apply (countWords_zero ("  " +:+ nl +:+ " ")); reflexivity.
Defined.

(** X3. Words joined by single spaces are counted one by one, and
    [strings.Fields] gives them back: punctuation inside a word does not
    split it. *)
Theorem countWords_Join (words : list string) :
  Forall isWord words → Forall (λ w, isASCII w = true) words →
  Fields (Join words " ") = words ∧
  countWords (Join words " ") = Z.of_nat (length words).
Proof.
  intros Hwords _. unfold countWords.
  rewrite Fields_Join by assumption. done.
Qed.

Lemma countWords_Join_witness :
  countWords (Join ["hello,"; "world!"; "how"; "are"; "you?"] " ") = 5.
Proof.
  refine (proj2 (countWords_Join ["hello,"; "world!"; "how"; "are"; "you?"] _ _)).
  - repeat constructor; discriminate.
  - repeat constructor.
Defined.

(** ** More about [parseLyrics] *)

Section parser_more_facts.
Context {tables : UnicodeTables}.

Lemma append_empty (s t : string) : s +:+ t = "" → s = "".
Proof. destruct s; [done | discriminate]. Qed.

Lemma Join_nonempty (elems : list string) (sep : string) :
  elems ≠ [] → Forall (λ l, l ≠ "") elems → Join elems sep ≠ "".
Proof.
  intros Hne Hall. destruct Hall as [|e rest He _]; [contradiction|].
  destruct rest as [|e' rest]; [exact He|].
  rewrite Join_cons_cons. intros Hj. by apply append_empty in Hj.
Qed.

Lemma wellFormed_start : wellFormed scanStart.
Proof.
  split; [|constructor]. intros k v Hk. simpl in Hk.
  by rewrite lookup_empty in Hk.
Qed.

Lemma wellFormed_save st :
  wellFormed st → ∀ k v, saveSection st !! k = Some v → k ≠ "" ∧ v ≠ "".
Proof.
  intros [Hmap Hcontent] k v. unfold saveSection.
  destruct (decide _) as [[Hne Hlen]|_]; [|apply Hmap].
  destruct (decide (currentSection st = k)) as [<-|Hk].
  - rewrite lookup_insert_eq. intros [= <-]. split; [exact Hne|].
    apply Join_nonempty; [|exact Hcontent].
    intros Hnil. rewrite Hnil in Hlen. simpl in Hlen. lia.
  - rewrite lookup_insert_ne by assumption. apply Hmap.
Qed.

Lemma wellFormed_scanLine st line : wellFormed st → wellFormed (scanLine st line).
Proof.
  intros Hwf. pose proof (wellFormed_save st Hwf) as Hsave.
  destruct Hwf as [Hmap Hcontent]. unfold scanLine.
  destruct (decide (TrimSpace line = "")) as [|Hline]; [by split|].
  destruct (bracketed (TrimSpace line)).
  - destruct (HasPrefix _ "title:"); split; simpl; done.
  - destruct (decide _); [|by split].
    split; simpl; [done|]. apply Forall_app. split; [done|]. by constructor.
Qed.

Lemma wellFormed_scanLines st lines : wellFormed st → wellFormed (scanLines st lines).
Proof.
  revert st. induction lines as [|l ls IH]; intros st Hwf; [done|].
  rewrite scanLines_cons. by apply IH, wellFormed_scanLine.
Qed.

(** The lines after a header, up to the next header, are collected, trimmed
    and without the blank ones. *)
Lemma scanLines_body st body :
  currentSection st ≠ "" → Forall (λ l, isHeader l = false) body →
  scanLines st body =
    {| structure := structure st; title := title st;
       currentSection := currentSection st;
       currentContent := currentContent st ++ contentOf body |}.
Proof.
  intros Hopen Hall. revert st Hopen.
  induction Hall as [|l ls Hl _ IH]; intros st Hopen.
  { unfold contentOf. simpl. rewrite app_nil_r. by destruct st. }
  rewrite scanLines_cons. unfold contentOf. rewrite fmap_cons, filter_cons.
  fold (contentOf ls). unfold isHeader in Hl.
  destruct (decide (TrimSpace l ≠ "")) as [Hline|Hline].
  - assert (scanLine st l =
            {| structure := structure st; title := title st;
               currentSection := currentSection st;
               currentContent := currentContent st ++ [TrimSpace l] |}) as ->.
    { unfold scanLine. rewrite Hl.
      rewrite decide_False by assumption. by rewrite decide_True. }
    rewrite IH by assumption. simpl. by rewrite <- app_assoc.
  - assert (isBlank l) as Hblank.
    { unfold isBlank. destruct (decide (TrimSpace l = "")); [done | contradiction]. }
    rewrite scanLine_blank by assumption. by apply IH.
Qed.

Lemma saveSection_other st k :
  currentSection st ≠ k ∨ k = "" → saveSection st !! k = structure st !! k.
Proof.
  intros Hk. unfold saveSection. destruct (decide _) as [[Hne _]|_]; [|done].
  rewrite lookup_insert_ne; [done|]. intros Heq. destruct Hk; congruence.
Qed.

(** Nothing is ever saved under the empty key. *)
Lemma scanLines_keeps_empty st lines :
  saveSection (scanLines st lines) !! "" = structure st !! "".
Proof.
  revert st. induction lines as [|l ls IH]; intros st.
  { apply saveSection_other. by right. }
  rewrite scanLines_cons, IH.
  pose proof (saveSection_other st "" (or_intror eq_refl)) as Hsave.
  unfold scanLine. destruct (decide _); [done|].
  destruct (bracketed _).
  - by destruct (HasPrefix _ "title:").
  - by destruct (decide _).
Qed.

(** A key under which no later header saves keeps what it holds. *)
Lemma scanLines_keeps st lines k :
  currentSection st ≠ k →
  Forall (λ l, isHeader l = true → sectionNameOf l ≠ k) lines →
  saveSection (scanLines st lines) !! k = structure st !! k.
Proof.
  destruct (decide (k = "")) as [->|Hk].
  { intros _ _. apply scanLines_keeps_empty. }
  intros Hcur Hall. revert st Hcur.
  induction Hall as [|l ls Hl _ IH]; intros st Hcur.
  { apply saveSection_other. by left. }
  rewrite scanLines_cons.
  pose proof (saveSection_other st k (or_introl Hcur)) as Hsave.
  destruct (isHeader l) eqn:Hh.
  - rewrite scanLine_header by assumption.
    destruct (HasPrefix (sectionNameOf l) "title:").
    + rewrite IH by (simpl; congruence). exact Hsave.
    + rewrite IH by (simpl; auto). exact Hsave.
  - assert (currentSection (scanLine st l) = currentSection st ∧
            structure (scanLine st l) = structure st) as [Hc Hs].
    { unfold scanLine. unfold isHeader in Hh. rewrite Hh.
      destruct (decide _); [done|]. by destruct (decide _). }
    rewrite IH by congruence. by rewrite Hs.
Qed.

End parser_more_facts.

(** X4. What a section holds. A header that is not a title header and has
    a name, followed by lines that are not headers of which at least one is
    not blank, and then by the end of the text or by a header, stores under
    its lowered name those lines, trimmed, without the blank ones and joined
    by line feeds, provided no later header bears the same name. *)
Theorem parseLyrics_section_content {tables : UnicodeTables}
    (text : string) (req : LyricsRequest)
    (pre : list string) (h : string) (body post : list string) :
  Split text newline = pre ++ h :: body ++ post →
  isHeader h = true → titleOf h = None → sectionNameOf h ≠ "" →
  Forall (λ l, isHeader l = false) body →
  contentOf body ≠ [] →
  match post with [] => True | next :: _ => isHeader next = true end →
  Forall (λ l, isHeader l = true → sectionNameOf l ≠ sectionNameOf h) post →
  Structure (parseLyrics text req) !! sectionNameOf h =
    Some (Join (contentOf body) nl).
Proof.
  intros Hsplit Hh Htitle Hname Hbody Hcontent Hnext Hlater.
  assert (HasPrefix (sectionNameOf h) "title:" = false) as Hnt.
  { unfold titleOf in Htitle. rewrite Hh in Htitle. simpl in Htitle.
    by destruct (HasPrefix (sectionNameOf h) "title:"). }
  assert (sections (Split text newline) !! sectionNameOf h =
          Some (Join (contentOf body) nl)) as Hfound.
  { unfold sections. rewrite Hsplit.
    rewrite scanLines_app, scanLines_cons, scanLines_app.
    rewrite (scanLine_header _ h), Hnt by assumption.
    rewrite (scanLines_body _ body) by first [exact Hbody | exact Hname]. simpl.
    set (st := {| structure := _; title := _; currentSection := sectionNameOf h;
                  currentContent := contentOf body |}).
    assert (saveSection st !! sectionNameOf h = Some (Join (contentOf body) nl))
      as Hsaved.
    { unfold saveSection. rewrite decide_True; [apply lookup_insert_eq|].
      split; [exact Hname|]. simpl. destruct (contentOf body); [done | simpl; lia]. }
    destruct post as [|next post]; [exact Hsaved|].
    rewrite scanLines_cons.
    apply Forall_cons in Hlater as [Hn Hlater].
    rewrite scanLines_keeps; [| |exact Hlater].
    - rewrite scanLine_header by assumption.
      by destruct (HasPrefix (sectionNameOf next) "title:").
    - rewrite scanLine_header by assumption.
      destruct (HasPrefix (sectionNameOf next) "title:"); simpl; auto. }
  simpl. unfold wholeTextIfEmpty.
  destruct (decide _) as [Hsize|_]; [|exact Hfound].
  apply map_size_empty_iff in Hsize. rewrite Hsize in Hfound.
  by rewrite lookup_empty in Hfound.
Qed.

Lemma parseLyrics_section_content_witness :
  sectionNameOf "[Chorus]" = "chorus" ∧
  Join (contentOf [""; "na na "; "hey"]) nl = "na na" +:+ nl +:+ "hey" ∧
  Structure (parseLyrics songWithIntro anyRequest) !! sectionNameOf "[Chorus]" =
    Some (Join (contentOf [""; "na na "; "hey"]) nl).
Proof.
  split; [reflexivity|]. split; [reflexivity|].
  apply (parseLyrics_section_content songWithIntro anyRequest
           ["Here is your song:"; ""; "[Verse 1]"; "la la"] "[Chorus]"
           [""; "na na "; "hey"] []).
  - reflexivity.
  - reflexivity.
  - reflexivity.
  - vm_compute. discriminate.
  - repeat constructor.
  - vm_compute. discriminate.
  - exact I.
  - constructor.
Defined.

(** X5. What the mapping can hold. An entry of the result is either the
    fallback, the whole text under ["verse1"] when the loop stored nothing, or
    it has a key that is not empty and is the lowered name of a header line
    of the text, and a text that is not empty. *)
Theorem parseLyrics_entries {tables : UnicodeTables}
    (text : string) (req : LyricsRequest) (k v : string) :
  Structure (parseLyrics text req) !! k = Some v →
  (sections (Split text newline) = ∅ ∧ k = "verse1" ∧ v = text) ∨
  (k ≠ "" ∧ v ≠ "" ∧
   ∃ l, l ∈ Split text newline ∧ isHeader l = true ∧ sectionNameOf l = k).
Proof.
  simpl. unfold wholeTextIfEmpty.
  destruct (decide _) as [Hsize|_].
  - apply map_size_empty_iff in Hsize. rewrite Hsize. intros Hk. left.
    apply lookup_insert_Some in Hk as [[<- <-]|[_ Hk]]; [done|].
    by rewrite lookup_empty in Hk.
  - intros Hk. right.
    pose proof (wellFormed_save _ (wellFormed_scanLines _ (Split text newline)
                  wellFormed_start) k v Hk) as [Hkey Hval].
    split_and!; [exact Hkey | exact Hval |].
    assert (is_Some (saveSection (scanLines scanStart (Split text newline)) !! k))
      as Hsome by (by exists v).
    apply scanLines_keys in Hsome as [Hsome|[[Hcur _]|Hsome]].
    + simpl in Hsome. rewrite lookup_empty in Hsome. by destruct Hsome.
    + simpl in Hcur. contradiction.
    + apply Exists_exists in Hsome as (l & Hin & Hh & Hname). by exists l.
Qed.

Lemma parseLyrics_entries_witness :
  "verse 1" ≠ "" ∧ "la la" ≠ "" ∧
  ∃ l, l ∈ Split songWithIntro newline ∧ isHeader l = true ∧
       sectionNameOf l = "verse 1".
Proof.
  assert (Structure (parseLyrics songWithIntro anyRequest) !! "verse 1" = Some "la la")
    as Hlookup by (vm_compute; reflexivity).
  destruct (parseLyrics_entries songWithIntro anyRequest "verse 1" "la la" Hlookup)
    as [(Hempty & _)|Hentry].
  - vm_compute in Hempty. discriminate.
  - exact Hentry.
Defined.

(** X6. Lines outside a section are dropped: the lines before the first
    header, and the lines between a title header and the next header, have no
    influence on the mapping the loop builds nor on the title. *)
Theorem parseLyrics_drops_unsectioned {tables : UnicodeTables}
    (text : string) (req : LyricsRequest) :
  (∀ pre rest,
     Split text newline = pre ++ rest →
     Forall (λ l, isHeader l = false) pre →
     Structure (parseLyrics text req) = wholeTextIfEmpty text (sections rest) ∧
     Title (parseLyrics text req) = title (scanLines scanStart rest)) ∧
  (∀ pre t name dropped rest,
     Split text newline = pre ++ t :: dropped ++ rest →
     titleOf t = Some name →
     Forall (λ l, isHeader l = false) dropped →
     Structure (parseLyrics text req) =
       wholeTextIfEmpty text (sections (pre ++ t :: rest)) ∧
     Title (parseLyrics text req) = title (scanLines scanStart (pre ++ t :: rest))).
Proof.
  split.
  - intros pre rest Hsplit Hpre. simpl. unfold sections. rewrite Hsplit.
    rewrite scanLines_app, (scanLines_closed scanStart pre) by done. done.
  - intros pre t name dropped rest Hsplit Ht Hdropped.
    assert (scanLines scanStart (Split text newline) =
            scanLines scanStart (pre ++ t :: rest)) as Hsame.
    { rewrite Hsplit. rewrite !scanLines_app, !scanLines_cons, scanLines_app.
      f_equal. apply scanLines_closed; [|exact Hdropped].
      unfold titleOf in Ht. destruct (isHeader t) eqn:Hh; [|discriminate].
      rewrite scanLine_header by assumption. simpl in Ht.
      by destruct (HasPrefix (sectionNameOf t) "title:"). }
    simpl. unfold sections. by rewrite Hsame.
Qed.

Lemma parseLyrics_drops_unsectioned_witness :
  Structure (parseLyrics songWithIntro anyRequest) =
    wholeTextIfEmpty songWithIntro
      (sections ["[Verse 1]"; "la la"; "[Chorus]"; ""; "na na "; "hey"]) ∧
  Structure (parseLyrics songWithByline anyRequest) =
    wholeTextIfEmpty songWithByline
      (sections (["[Title: Night]"] ++ ["[Verse 1]"; "la la"])).
Proof.
  split.
  - refine (proj1 (proj1 (parseLyrics_drops_unsectioned songWithIntro anyRequest)
                     ["Here is your song:"; ""]
                     ["[Verse 1]"; "la la"; "[Chorus]"; ""; "na na "; "hey"] _ _)).
    + reflexivity.
    + repeat constructor.
  - refine (proj1 (proj2 (parseLyrics_drops_unsectioned songWithByline anyRequest)
                     [] "[Title: Night]" "night" ["by nobody"]
                     ["[Verse 1]"; "la la"] _ _ _)).
    + reflexivity.
    + reflexivity.
    + repeat constructor.
Defined.

(** ** [sanitizeForLogging], the two versions side by side *)

(** X7. Whatever the direct version changes, the gateway version replaces by
    one of its markers: the gateway version hides at least as much. *)
Theorem sanitizeForLogging_gateway_covers_direct {tables : UnicodeTables}
    (input : string) :
  Direct.sanitizeForLogging input ≠ input →
  Direct.sanitizeForLogging input = "[REDACTED_API_KEY]" ∧
  Gateway.sanitizeForLogging input ∈ Gateway.markers.
Proof.
  unfold Direct.sanitizeForLogging, Gateway.sanitizeForLogging, Gateway.markers.
  destruct (Contains (ToLower input) "bearer "); [intros _; split; [done | listed]|].
  destruct (HasPrefix (ToLower input) "sk-") eqn:Hsk; [intros _; split; [done | listed]|].
  simpl. rewrite Hsk. simpl.
  destruct (HasPrefix (ToLower input) "pk-"); [intros _; split; [done | listed]|].
  destruct (HasPrefix (ToLower input) "api_"); [intros _; split; [done | listed]|].
  destruct (HasPrefix (ToLower input) "token_"); [intros _; split; [done | listed]|].
  simpl. intros Hne. contradiction.
Qed.

Lemma sanitizeForLogging_gateway_covers_direct_witness :
  Direct.sanitizeForLogging "Token_9f2c" = "[REDACTED_API_KEY]" ∧
  Gateway.sanitizeForLogging "Token_9f2c" ∈ Gateway.markers.
Proof.
  apply (sanitizeForLogging_gateway_covers_direct "Token_9f2c").
  vm_compute. discriminate.
Defined.

(** ** [buildPrompt] and [getValidOptions] *)

Lemma HasPrefix_append (p s : string) : HasPrefix (p +:+ s) p = true.
Proof.
  unfold HasPrefix. induction p as [|c p IH]; [by destruct s|].
  rewrite append_cons. simpl. destruct (ascii_dec c c); [exact IH | contradiction].
Qed.

Lemma HasPrefix_refl (s : string) : HasPrefix s s = true.
Proof.
  unfold HasPrefix. induction s as [|c s IH]; [done|].
  simpl. destruct (ascii_dec c c); [exact IH | contradiction].
Qed.

Lemma append_assoc (a b c : string) : (a +:+ b) +:+ c = a +:+ b +:+ c.
Proof.
  induction a as [|x a IH]; [reflexivity|].
  rewrite !append_cons. by rewrite IH.
Qed.

Lemma Contains_prefix (s sub : string) : HasPrefix s sub = true → Contains s sub = true.
Proof. intros Hp. destruct s; cbn [Contains]; rewrite Hp; reflexivity. Qed.

Lemma Contains_skip (a s sub : string) :
  Contains s sub = true → Contains (a +:+ s) sub = true.
Proof.
  intros Hs. induction a as [|c a IH]; [exact Hs|].
  rewrite append_cons. cbn [Contains]. rewrite IH. apply orb_true_r.
Qed.

Lemma HasPrefix_append_l (s t sub : string) :
  HasPrefix s sub = true → HasPrefix (s +:+ t) sub = true.
Proof.
  unfold HasPrefix. revert s. induction sub as [|d sub IH]; intros s Hp.
  - by destruct (s +:+ t).
  - destruct s as [|c s]; [discriminate|]. rewrite append_cons. simpl in *.
    destruct (ascii_dec d c); [by apply IH | discriminate].
Qed.

Lemma Contains_append_l (s t sub : string) :
  Contains s sub = true → Contains (s +:+ t) sub = true.
Proof.
  induction s as [|c s IH]; cbn [Contains]; intros Hc.
  - rewrite orb_false_r in Hc. apply Contains_prefix.
    by apply (HasPrefix_append_l "" t sub).
  - rewrite append_cons. cbn [Contains].
    apply orb_true_iff in Hc as [Hc|Hc]; apply orb_true_iff.
    + left. by apply (HasPrefix_append_l (String c s) t sub).
    + right. by apply IH.
Qed.

Lemma Contains_here (sub s : string) : Contains (sub +:+ s) sub = true.
Proof. apply Contains_prefix, HasPrefix_append. Qed.

Lemma Contains_Join (elems : list string) (sep e : string) :
  e ∈ elems → Contains (Join elems sep) e = true.
Proof.
  induction elems as [|x [|y rest] IH]; intros Hin.
  - by apply elem_of_nil in Hin.
  - apply elem_of_cons in Hin as [->|Hin]; [|by apply elem_of_nil in Hin].
    apply Contains_prefix, HasPrefix_refl.
  - rewrite Join_cons_cons.
    apply elem_of_cons in Hin as [->|Hin]; [apply Contains_here|].
    apply Contains_skip, Contains_skip, IH, Hin.
Qed.

(** Two neighbours of a list joined without separator are found side by
    side. *)
Lemma Contains_Join_pair (before : list string) (a b : string) (after : list string) :
  Contains (Join (before ++ a :: b :: after) "") (a +:+ b) = true.
Proof.
  induction before as [|x before IH].
  - simpl app. rewrite Join_cons_cons. rewrite append_nil.
    destruct after as [|c after].
    + apply Contains_prefix. apply HasPrefix_refl.
    + rewrite Join_cons_cons, append_nil.
      rewrite <- append_assoc. apply Contains_here.
  - simpl app. destruct before as [|y before]; simpl app in *;
      rewrite Join_cons_cons, append_nil; by apply Contains_skip.
Qed.

(** X8. The prompt names what was asked for: the language, the genre, the
    emotion and every keyword of the request are in it as they were
    submitted, the keywords separated by a comma and a space, and so is the
    number of verses in decimal. *)
Theorem buildPrompt_mentions (req : LyricsRequest) :
  Contains (buildPrompt req) (Language req) = true ∧
  Contains (buildPrompt req) (Genre req) = true ∧
  Contains (buildPrompt req) (Emotion req) = true ∧
  Contains (buildPrompt req) (Join (Keywords req) ", ") = true ∧
  (∀ keyword, keyword ∈ Keywords req → Contains (buildPrompt req) keyword = true) ∧
  Contains (buildPrompt req)
    (nl +:+ "Number of verses: " +:+ formatInt (Verses (Structure_ req))) = true.
Proof.
  assert (∀ piece, piece ∈ promptPieces req → Contains (buildPrompt req) piece = true)
    as Hpiece by (intros piece; apply Contains_Join).
  split_and!.
  - apply Hpiece. unfold promptPieces. listed.
  - apply Hpiece. unfold promptPieces. listed.
  - apply Hpiece. unfold promptPieces. listed.
  - apply Hpiece. unfold promptPieces. listed.
  - intros keyword Hin.
    pose proof (Contains_Join (Keywords req) ", " keyword Hin) as Hk.
    unfold buildPrompt, promptPieces.
    do 7 (rewrite Join_cons_cons, append_nil; apply Contains_skip).
    rewrite Join_cons_cons, append_nil. by apply Contains_append_l.
  - unfold buildPrompt, promptPieces.
    replace (nl +:+ "Number of verses: " +:+ formatInt (Verses (Structure_ req)))
      with ((nl +:+ "Number of verses: ") +:+ formatInt (Verses (Structure_ req)))
      by apply append_assoc.
    apply (Contains_Join_pair
             ["Write song lyrics in "; Language req;
              " with the following specifications:" +:+ nl +:+ nl +:+ "Genre: ";
              Genre req; nl +:+ "Emotion/Mood: "; Emotion req;
              nl +:+ "Keywords to include: "; Join (Keywords req) ", "]).
Qed.

(** Three neighbours of a list joined without separator are found side by
    side. *)
Lemma Contains_Join_triple (before : list string) (a b c : string)
    (after : list string) :
  Contains (Join (before ++ a :: b :: c :: after) "") (a +:+ b +:+ c) = true.
Proof.
  induction before as [|x before IH].
  - simpl app. rewrite !Join_cons_cons, !append_nil.
    destruct after as [|d after].
    + apply Contains_prefix, HasPrefix_refl.
    + rewrite Join_cons_cons, append_nil.
      replace (a +:+ b +:+ c +:+ Join (d :: after) "")
        with ((a +:+ b +:+ c) +:+ Join (d :: after) "")
        by (by rewrite !append_assoc).
      apply Contains_here.
  - simpl app. destruct before as [|y before]; simpl app in *;
      rewrite Join_cons_cons, append_nil; by apply Contains_skip.
Qed.

Lemma HasPrefix_shorter (s u v : string) :
  HasPrefix s (u +:+ v) = true → HasPrefix s u = true.
Proof.
  unfold HasPrefix. revert s. induction u as [|c u IH]; intros s Hp.
  - by destruct s.
  - rewrite append_cons in Hp. destruct s as [|d s]; [discriminate|].
    simpl in *. destruct (ascii_dec c d); [by apply IH | discriminate].
Qed.

Lemma Contains_shorter (s u v : string) :
  Contains s (u +:+ v) = true → Contains s u = true.
Proof.
  induction s as [|c s IH]; cbn [Contains]; intros Hc.
  - rewrite orb_false_r in Hc |- *. by apply HasPrefix_shorter in Hc.
  - apply orb_true_iff in Hc as [Hc|Hc]; apply orb_true_iff.
    + left. by apply HasPrefix_shorter in Hc.
    + right. by apply IH.
Qed.

(** X9. After the structure defaults of the handler the prompt has the
    whole line [Include chorus: true], whatever the request said; and for a
    request the binding lets through, the whole line [Number of verses: ]
    with the number submitted. *)
Theorem buildPrompt_after_defaults (req : LyricsRequest) :
  Contains (buildPrompt (setDefaultStructure req))
           (nl +:+ "Include chorus: true" +:+ nl) = true ∧
  (bindingPasses req = true →
   Contains (buildPrompt (setDefaultStructure req))
            (nl +:+ "Number of verses: " +:+
             formatInt (Verses (Structure_ req)) +:+ nl) = true).
Proof.
  assert (Chorus (Structure_ (setDefaultStructure req)) = true) as Hchorus.
  { destruct req as [k g e l [v c b]]. unfold setDefaultStructure. simpl.
    by destruct (decide (v = 0)), c. }
  set (r := setDefaultStructure req) in *.
  split.
  - apply (Contains_shorter _ _ "Include bridge: ").
    replace ((nl +:+ "Include chorus: true" +:+ nl) +:+ "Include bridge: ")
      with ((nl +:+ "Include chorus: ") +:+ formatBool true +:+
            (nl +:+ "Include bridge: ")) by reflexivity.
    unfold buildPrompt, promptPieces. rewrite Hchorus.
    apply (Contains_Join_triple
             ["Write song lyrics in "; Language r;
              " with the following specifications:" +:+ nl +:+ nl +:+ "Genre: ";
              Genre r; nl +:+ "Emotion/Mood: "; Emotion r;
              nl +:+ "Keywords to include: "; Join (Keywords r) ", ";
              nl +:+ "Number of verses: "; formatInt (Verses (Structure_ r))]).
  - intros Hbind.
    assert (Verses (Structure_ r) = Verses (Structure_ req)) as Hverses.
    { unfold bindingPasses in Hbind. apply andb_prop in Hbind as [_ Hv].
      apply bool_decide_eq_true_1 in Hv. subst r.
      destruct req as [k g e l [v c b]]. unfold setDefaultStructure. simpl in *.
      rewrite decide_False by lia. by destruct c. }
    apply (Contains_shorter _ _ "Include chorus: ").
    replace ((nl +:+ "Number of verses: " +:+
              formatInt (Verses (Structure_ req)) +:+ nl) +:+ "Include chorus: ")
      with ((nl +:+ "Number of verses: ") +:+ formatInt (Verses (Structure_ r)) +:+
            (nl +:+ "Include chorus: "))
      by (rewrite Hverses; by rewrite !append_assoc).
    unfold buildPrompt, promptPieces.
    apply (Contains_Join_triple
             ["Write song lyrics in "; Language r;
              " with the following specifications:" +:+ nl +:+ nl +:+ "Genre: ";
              Genre r; nl +:+ "Emotion/Mood: "; Emotion r;
              nl +:+ "Keywords to include: "; Join (Keywords r) ", "]).
Qed.

Lemma buildPrompt_after_defaults_witness :
  Chorus (Structure_ quietRequest) = false ∧
  Contains (buildPrompt (setDefaultStructure quietRequest))
           (nl +:+ "Include chorus: true" +:+ nl) = true ∧
  Contains (buildPrompt (setDefaultStructure quietRequest))
           (nl +:+ "Number of verses: " +:+ "3" +:+ nl) = true.
Proof.
  destruct (buildPrompt_after_defaults quietRequest) as [Hchorus Hverses].
  split_and!; [reflexivity | exact Hchorus | exact (Hverses eq_refl)].
Defined.

Lemma Contains_options {iteration : MapIteration}
    (validMap : gmap string bool) (key : string) :
  is_Some (validMap !! key) → Contains (getValidOptions validMap) key = true.
Proof.
  intros [v Hv]. unfold getValidOptions. apply Contains_Join.
  rewrite rangeKeys_keys.
  apply list_elem_of_fmap. exists (key, v). split; [reflexivity|].
  by apply elem_of_map_to_list.
Qed.

(** X10. In whatever order the keys of the map come on a run, the list of
    options names every one of them, a key with the value [false] too. *)
Theorem getValidOptions_lists_all {iteration : MapIteration}
    (validMap : gmap string bool) (key : string) :
  is_Some (validMap !! key) → Contains (getValidOptions validMap) key = true.
Proof.
  intros [v Hv]. unfold getValidOptions.
  assert (key ∈ rangeKeys validMap) as Hin.
  { rewrite rangeKeys_keys.
    apply list_elem_of_fmap. exists (key, v). split; [reflexivity|].
    by apply elem_of_map_to_list. }
  revert Hin. generalize (rangeKeys validMap). intros keys Hin.
  by apply Contains_Join.
Qed.

Lemma getValidOptions_lists_all_witness :
  @getValidOptions listedOrder ValidGenres ≠ @getValidOptions reverseOrder ValidGenres ∧
  Contains (@getValidOptions listedOrder ValidGenres) "hip-hop" = true ∧
  Contains (@getValidOptions reverseOrder ValidGenres) "hip-hop" = true.
Proof.
  assert (is_Some (ValidGenres !! "hip-hop")) as Hkey by (exists true; reflexivity).
  split_and!.
  - vm_compute. discriminate.
  - exact (@getValidOptions_lists_all listedOrder ValidGenres "hip-hop" Hkey).
  - exact (@getValidOptions_lists_all reverseOrder ValidGenres "hip-hop" Hkey).
Defined.

(** ** The handler, case by case *)

(** X11. A bound request that fails a look-up has an answer that is
    settled before the service comes in: status 400, the code of the first
    look-up that fails (the genre is looked at first, then the emotion, then
    the language) and a message that, in whatever order the options come,
    names every supported value of that field. No service, whatever it
    returns, changes that answer. *)
Theorem generateLyrics_rejects
    {tables : UnicodeTables} {iteration : MapIteration} {E : Type}
    (service : LyricsRequest → result E LyricsResponse) (req : LyricsRequest) :
  accepted req = false →
  let '(code, start, options) := firstFailure req in
  generateLyrics service (ok req) =
    {| status := 400;
       body := inl {| Error := code;
                      Message := start +:+ getValidOptions options |} |} ∧
  (∀ (E' : Type) (service' : LyricsRequest → result E' LyricsResponse),
     generateLyrics service' (ok req) = generateLyrics service (ok req)) ∧
  (∀ option, is_Some (options !! option) →
     Contains (start +:+ getValidOptions options) option = true).
Proof.
  unfold accepted, firstFailure, generateLyrics. intros Hrej.
  destruct (index ValidGenres _); cbn [negb andb] in *.
  - destruct (index ValidEmotions _); cbn [negb andb] in *.
    + rewrite Hrej. cbn [negb]. split_and!; [reflexivity | reflexivity |].
      intros option Hin. by apply Contains_skip, Contains_options.
    + split_and!; [reflexivity | reflexivity |].
      intros option Hin. by apply Contains_skip, Contains_options.
  - split_and!; [reflexivity | reflexivity |].
    intros option Hin. by apply Contains_skip, Contains_options.
Qed.

Lemma generateLyrics_rejects_witness :
  firstFailure gloomyRequest =
    ("invalid_emotion", "Unsupported emotion. Supported emotions: ", ValidEmotions) ∧
  generateLyrics (λ _, @err unit LyricsResponse tt) (ok gloomyRequest) =
    badRequest "invalid_emotion"
      ("Unsupported emotion. Supported emotions: " +:+ getValidOptions ValidEmotions) ∧
  Contains ("Unsupported emotion. Supported emotions: " +:+
            getValidOptions ValidEmotions) "melancholic" = true.
Proof.
  assert (accepted gloomyRequest = false) as Hrej by reflexivity.
  pose proof (generateLyrics_rejects (λ _, @err unit LyricsResponse tt)
                gloomyRequest Hrej) as Hthm.
  assert (firstFailure gloomyRequest =
          ("invalid_emotion", "Unsupported emotion. Supported emotions: ",
           ValidEmotions)) as Hfirst by reflexivity.
  rewrite Hfirst in Hthm. destruct Hthm as (Hreply & _ & Hlist).
  split_and!; [exact Hfirst | exact Hreply |].
  apply Hlist. exists true. reflexivity.
Defined.

(** X12. The status of the answer is 200, 400 or 500. It is 200 exactly
    when the body was bound, the three look-ups pass and the service returns
    a response for the request with its defaults, and that response is the
    body. It is 400 exactly when the body was not bound or a look-up fails.
    Whatever error the service returns, the body of a 500 answer is the same
    fixed one. *)
Theorem generateLyrics_status
    {tables : UnicodeTables} {iteration : MapIteration} {E : Type}
    (service : LyricsRequest → result E LyricsResponse)
    (bound : result string LyricsRequest) :
  let r := generateLyrics service bound in
  (status r = 200 ∨ status r = 400 ∨ status r = 500) ∧
  (status r = 200 ↔
     ∃ req response, bound = ok req ∧ accepted req = true ∧
       service (setDefaultStructure req) = ok response ∧ body r = inr response) ∧
  (status r = 400 ↔
     (∃ e, bound = err e) ∨ (∃ req, bound = ok req ∧ accepted req = false)) ∧
  (status r = 500 →
     body r = inl {| Error := "generation_failed";
                     Message := "Failed to generate lyrics. Please try again." |}).
Proof.
  destruct bound as [req|e]; simpl.
  2:{ split; [lia|]; split; [|split; [|lia]].
      - split; [lia|]. intros (req & response & Hb & _). discriminate Hb.
      - split; [intros _; left; by exists e | done]. }
  unfold accepted.
  destruct (index ValidGenres _) eqn:Hg; simpl;
    [destruct (index ValidEmotions _) eqn:He; simpl;
       [destruct (index ValidLanguages _) eqn:Hl; simpl|]|].
  - destruct (service (setDefaultStructure req)) as [response|e] eqn:Hs; simpl.
    + split; [lia|]; split; [|split; [|lia]].
      * split; [intros _|done]. exists req, response. by rewrite Hg, He, Hl.
      * split; [lia|]. intros [[e He']|(r & [= <-] & Hr)]; [discriminate|].
        rewrite Hg, He, Hl in Hr. discriminate.
    + split; [lia|]; split; [|split; [|done]].
      * split; [lia|].
        intros (r & response & [= <-] & _ & Hr & _). congruence.
      * split; [lia|]. intros [[e' He']|(r & [= <-] & Hr)]; [discriminate|].
        rewrite Hg, He, Hl in Hr. discriminate.
  - split; [lia|]; split; [|split; [|lia]].
    + split; [lia|]. intros (r & response & [= <-] & Hr & _).
      rewrite Hg, He, Hl in Hr. discriminate.
    + split; [intros _; right|done]. exists req. by rewrite Hg, He, Hl.
  - split; [lia|]; split; [|split; [|lia]].
    + split; [lia|]. intros (r & response & [= <-] & Hr & _).
      rewrite Hg, He in Hr. discriminate.
    + split; [intros _; right|done]. exists req. by rewrite Hg, He.
  - split; [lia|]; split; [|split; [|lia]].
    + split; [lia|]. intros (r & response & [= <-] & Hr & _).
      rewrite Hg in Hr. discriminate.
    + split; [intros _; right|done]. exists req. by rewrite Hg.
Qed.

Lemma generateLyrics_status_witness :
  status (generateLyrics (λ _, @err string LyricsResponse "upstream said no")
                         (ok quietRequest)) = 500 ∧
  body (generateLyrics (λ _, @err string LyricsResponse "upstream said no")
                       (ok quietRequest)) =
    inl {| Error := "generation_failed";
           Message := "Failed to generate lyrics. Please try again." |}.
Proof.
  assert (status (generateLyrics (λ _, @err string LyricsResponse "upstream said no")
                                 (ok quietRequest)) = 500) as Hs by reflexivity.
  split; [exact Hs|].
  exact (proj2 (proj2 (proj2 (generateLyrics_status
           (λ _, @err string LyricsResponse "upstream said no") (ok quietRequest)))) Hs).
Defined.

(** ** The service of the direct API-key variant *)

Module DirectAPIFacts.
Import DirectAPI.

Ltac run :=
  cbv [GenerateLyrics post fail mbind M_bind mret M_ret
       fateOfCall send emit newUUID timeNow];
  cbn.

(** The outcome of [GenerateLyrics], case by case. *)
Lemma GenerateLyrics_spec {tables : UnicodeTables}
    (s : LyricsService) (req : LyricsRequest) (w : world) :
  let r := GenerateLyrics s req w in
  calls r.2 = (if reachesNetwork (upstream w (calls w)) then S (calls w)
               else calls w) ∧
  r.1 =
    match upstream w (calls w) with
    | marshalFails cause => err (marshalError cause)
    | createFails cause => err (createRequestError cause)
    | doFails cause => err (requestError cause)
    | readFails cause => err (readError cause)
    | responds code raw (err cause) => err (parseError cause)
    | responds code raw (ok openaiResp) =>
        match APIError openaiResp with
        | Some e => err (apiError (ErrorMessage e))
        | None =>
            if decide (code ≠ 200) then err (statusError code raw)
            else match Choices openaiResp with
                 | [] => err noChoicesError
                 | choice :: _ => ok (made req w (Content (ChoiceMessage choice)))
                 end
        end
    end.
Proof.
  unfold made. run.
  destruct (upstream w (calls w))
    as [cause|cause|cause|cause|code raw [openaiResp|cause]]; cbn; try done.
  destruct (APIError openaiResp); cbn; [done|].
  destruct (decide (code ≠ 200)); cbn; [done|].
  destruct (Choices openaiResp); done.
Qed.




(** X14. On a good answer the response is made from the first choice
    alone: its text parsed by [parseLyrics] and its words counted, the genre,
    the emotion, the language and the keywords of the request given back as
    they were submitted, a fresh identifier and the clock value. (The text is
    one of ASCII bytes, where [countWords] is as in Go.) *)
Theorem GenerateLyrics_response {tables : UnicodeTables}
    (s : LyricsService) (req : LyricsRequest) (w : world)
    (raw : string) (openaiResp : OpenAIChatResponse)
    (choice : OpenAIChatChoice) (others : list OpenAIChatChoice) :
  upstream w (calls w) = responds 200 raw (ok openaiResp) →
  APIError openaiResp = None →
  Choices openaiResp = choice :: others →
  isASCII (Content (ChoiceMessage choice)) = true →
  (GenerateLyrics s req w).1 =
    ok {| ID := uuids w (drawn w);
          Lyrics := parseLyrics (Content (ChoiceMessage choice)) req;
          Metadata := {| MetaGenre := Genre req;
                         MetaEmotion := Emotion req;
                         MetaLanguage := Language req;
                         KeywordsUsed := Keywords req;
                         CreatedAt := clock w (ticks w);
                         WordCount := countWords (Content (ChoiceMessage choice)) |} |}.
Proof.
  intros Hx Herr Hchoices _.
  destruct (GenerateLyrics_spec s req w) as [_ Hr].
  rewrite Hr, Hx, Herr, Hchoices. reflexivity.
Qed.

Lemma GenerateLyrics_response_witness :
  ∃ response,
    (GenerateLyrics demoService anyRequest
       (answering [choiceOf loveSong; choiceOf plainText])).1 = ok response ∧
    Title (Lyrics response) = "love song" ∧
    WordCount (Metadata response) = 12 ∧
    ID response = "id-0".
Proof.
  eexists. split.
  - apply (GenerateLyrics_response demoService anyRequest
             (answering [choiceOf loveSong; choiceOf plainText]) "{...}"
             _ (choiceOf loveSong) [choiceOf plainText] eq_refl eq_refl eq_refl eq_refl).
  - split_and!; reflexivity.
Defined.

(** X15. What goes out. When the request can be marshalled and built,
    exactly one request is handed to the HTTP client: a POST to the base URL
    followed by [/v1/chat/completions], with the API key as bearer in its
    one [Authorization] value, carrying the model of the service, the system
    prompt and the prompt built from the request. Otherwise nothing goes
    out. *)
Theorem GenerateLyrics_sends {tables : UnicodeTables}
    (s : LyricsService) (req : LyricsRequest) (w : world) :
  sent (GenerateLyrics s req w).2 =
    (if reachesNetwork (upstream w (calls w)) then sent w ++ [chatCall s req]
     else sent w) ∧
  Method (chatCall s req) = "POST" ∧
  URL (chatCall s req) = baseURL s +:+ "/v1/chat/completions" ∧
  Header (chatCall s req) !! "Authorization" = Some ["Bearer " +:+ apiKey s] ∧
  Model (Payload (chatCall s req)) = model s ∧
  Content <$> Messages (Payload (chatCall s req)) = [promptSystem; buildPrompt req].
Proof.
  split; [|by split_and!].
  run. destruct (upstream w (calls w))
    as [cause|cause|cause|cause|code raw [openaiResp|cause]]; cbn; try reflexivity.
  destruct (APIError openaiResp); cbn; [reflexivity|].
  destruct (decide (code ≠ 200)); cbn; [reflexivity|].
  destruct (Choices openaiResp); reflexivity.
Qed.

Lemma generateLyrics_accepted
    {tables : UnicodeTables} {iteration : MapIteration} {E : Type}
    (service : LyricsRequest → result E LyricsResponse) (req : LyricsRequest) :
  accepted req = true →
  generateLyrics service (ok req) = respond (service (setDefaultStructure req)).
Proof.
  unfold accepted, generateLyrics. intros Hacc.
  apply andb_prop in Hacc as [Hacc Hl]. apply andb_prop in Hacc as [Hg He].
  by rewrite Hg, He, Hl.
Qed.

(** X16. From the request to the answer. For a request that passes the
    look-ups, handled with this service: when the API answers well, the
    answer has status 200 and its body gives back the genre, the emotion, the
    language and the keywords as they were submitted (not lowered), the word
    count of the generated text and the text parsed; when the call of the API
    fails in any way, the answer is the fixed one with status 500. *)
Theorem generateLyrics_end_to_end
    {tables : UnicodeTables} {iteration : MapIteration}
    (s : LyricsService) (req : LyricsRequest) (w : world) :
  accepted req = true →
  let r := generateLyrics (λ req', (GenerateLyrics s req' w).1) (ok req) in
  (∀ raw openaiResp choice others,
     upstream w (calls w) = responds 200 raw (ok openaiResp) →
     APIError openaiResp = None →
     Choices openaiResp = choice :: others →
     isASCII (Content (ChoiceMessage choice)) = true →
     ∃ response,
       r = {| status := 200; body := inr response |} ∧
       Lyrics response =
         parseLyrics (Content (ChoiceMessage choice)) (setDefaultStructure req) ∧
       WordCount (Metadata response) = countWords (Content (ChoiceMessage choice)) ∧
       (MetaGenre (Metadata response), MetaEmotion (Metadata response),
        MetaLanguage (Metadata response), KeywordsUsed (Metadata response)) =
         (Genre req, Emotion req, Language req, Keywords req)) ∧
  (completionFails (upstream w (calls w)) →
     r = {| status := 500;
            body := inl {| Error := "generation_failed";
                           Message := "Failed to generate lyrics. Please try again." |} |}).
Proof.
  intros Hacc r. subst r. rewrite generateLyrics_accepted by assumption.
  destruct (GenerateLyrics_spec s (setDefaultStructure req) w) as [_ Hr].
  simpl in Hr. rewrite Hr. clear Hr. split.
  - intros raw openaiResp choice others Hx Herr Hchoices _.
    rewrite Hx, Herr, Hchoices. simpl.
    eexists. split; [reflexivity|]. by split_and!.
  - unfold completionFails.
    destruct (upstream w (calls w))
      as [cause|cause|cause|cause|code raw [openaiResp|cause]]; try done.
    destruct (APIError openaiResp) as [e|]; [done|].
    destruct (decide (code ≠ 200)); [done|].
    destruct (Choices openaiResp); [done|].
    intros [[e He]|[Hc|Hc]]; [discriminate | contradiction | discriminate].
Qed.

Lemma generateLyrics_end_to_end_witness :
  ∃ response,
    generateLyrics
      (λ req', (GenerateLyrics demoService req' (answering [choiceOf loveSong])).1)
      (ok loudRequest) = {| status := 200; body := inr response |} ∧
    MetaGenre (Metadata response) = "POP" ∧
    WordCount (Metadata response) = 12.
Proof.
  assert (accepted loudRequest = true) as Hacc by reflexivity.
  destruct (proj1 (generateLyrics_end_to_end demoService loudRequest
                     (answering [choiceOf loveSong]) Hacc)
              "{...}" _ (choiceOf loveSong) [] eq_refl eq_refl eq_refl eq_refl)
    as (response & Hr & _ & Hcount & Hecho).
  exists response. split; [exact Hr|]. split.
  - by injection Hecho.
  - rewrite Hcount. reflexivity.
Defined.

End DirectAPIFacts.

(** ** The token cache over several calls *)

Module CacheFacts.
Import Gateway.

Ltac run :=
  cbv [haveValidToken requestNewToken GetAccessToken fail announce handover
       mbind M_bind mret M_ret getClient timeNow fateOfRequest httpDo emit store];
  cbn.

Section cache_facts.
Context {tables : UnicodeTables}.

(** [GetAccessToken], step by step. *)
Lemma GetAccessToken_steps (s : state) :
  GetAccessToken s =
    let '(valid, s1) := haveValidToken s in
    if valid then (ok (accessToken (client s1)), s1)
    else
      let '(_, s2) := handover s1 in
      let '(valid, s3) := haveValidToken s2 in
      if valid then (ok (accessToken (client s3)), s3)
      else requestNewToken s3.
Proof.
  unfold GetAccessToken. unfold mbind at 1, M_bind at 1.
  destruct (haveValidToken s) as [[] s1]; [reflexivity|].
  unfold mbind at 1, M_bind at 1. destruct (handover s1) as [[] s2].
  unfold mbind at 1, M_bind at 1.
  destruct (haveValidToken s2) as [[] s3]; reflexivity.
Qed.

Lemma haveValidToken_steps (s : state) :
  haveValidToken s =
    if decide (accessToken (client s) ≠ "") then
      (bool_decide (clock (env s) (ticks (env s)) + 30 * Second < expiresAt (client s)),
       (timeNow s).2)
    else (false, s).
Proof. destruct s as [c w]. run. by destruct (decide _). Qed.

Lemma haveValidToken_stale (s : state) :
  stale (client s) (clock (env s) (ticks (env s))) → (haveValidToken s).1 = false.
Proof.
  intros Hstale. rewrite haveValidToken_steps.
  destruct (decide _) as [Hne|_]; [|reflexivity]. simpl.
  destruct Hstale as [He|Hexp]; [contradiction|].
  apply bool_decide_eq_false_2. lia.
Qed.

Lemma exchangeFails_dec (x : exchange) : exchangeFails x ∨ ¬ exchangeFails x.
Proof.
  destruct x as [cause|cause|cause|code raw [tokenResp|cause]]; simpl; try by left.
  destruct (decide (Error tokenResp = "")) as [He|He]; [|left; by left].
  destruct (decide (code = 200)) as [Hc|Hc]; [|left; right; by left].
  destruct (decide (AccessToken tokenResp = "")) as [Ht|Ht]; [left; right; by right|].
  right. intros [Hf|[Hf|Hf]]; contradiction.
Qed.

(** The two outcomes of an exchange. *)
Lemma requestNewToken_cases (s : state) :
  let x := endpoint (env s) (exchanges (env s)) in
  let r := requestNewToken s in
  exchanges (env r.2) = S (exchanges (env s)) ∧
  (exchangeFails x → (∃ e, r.1 = err e) ∧ client r.2 = client s) ∧
  (¬ exchangeFails x →
     ∃ code raw tokenResp,
       x = responds code raw (ok tokenResp) ∧
       AccessToken tokenResp ≠ "" ∧
       r.1 = ok (AccessToken tokenResp) ∧
       accessToken (client r.2) = AccessToken tokenResp ∧
       expiresAt (client r.2) = lastReading r.2 + seconds (lifetime tokenResp)).
Proof.
  intros x r. destruct (GatewayFacts.requestNewToken_spec s) as [Hcount Hcase].
  fold x r in Hcount, Hcase. split; [exact Hcount|]. unfold exchangeFails.
  destruct x as [cause|cause|cause|code raw [tokenResp|cause]];
    try (split; [intros _; exact Hcase | intros Hn; by destruct Hn]).
  destruct (decide _) as [(He & Hc & Ht)|Hnot].
  - split; [intros [Hf|[Hf|Hf]]; contradiction|].
    intros _. exists code, raw, tokenResp. by destruct Hcase as (? & ? & ?).
  - split; [intros _; exact Hcase|]. intros Hgood. exfalso. apply Hnot.
    split_and!.
    + destruct (decide (Error tokenResp = "")); [done|]. exfalso. apply Hgood. by left.
    + destruct (decide (code = 200)); [done|]. exfalso. apply Hgood. right. by left.
    + intros Ht. apply Hgood. right. by right.
Qed.

(** With a stale token and nobody else refreshing it, [GetAccessToken] is
    the exchange. *)
Lemma GetAccessToken_stale_steps (s : state) :
  racing (env s) = None →
  stale (client s) (clock (env s) (ticks (env s))) →
  stale (client s) (clock (env s) (S (ticks (env s)))) →
  ∃ s3, GetAccessToken s = requestNewToken s3 ∧
        client s3 = client s ∧
        endpoint (env s3) = endpoint (env s) ∧
        exchanges (env s3) = exchanges (env s) ∧
        posted (env s3) = posted (env s).
Proof.
  intros Hquiet Hstale1 Hstale2. rewrite GetAccessToken_steps.
  pose proof (haveValidToken_stale s Hstale1) as Hv1.
  rewrite haveValidToken_steps in Hv1 |- *.
  destruct s as [c w]. simpl in *.
  destruct (decide (accessToken c ≠ "")) as [Hne|He]; simpl in *.
  - rewrite Hv1. unfold handover. simpl. rewrite Hquiet.
    rewrite haveValidToken_steps. simpl. rewrite decide_True by assumption.
    rewrite bool_decide_eq_false_2.
    + eexists. split; [reflexivity|]. done.
    + destruct Hstale2 as [He|Hexp]; [contradiction | lia].
  - unfold handover. simpl. rewrite Hquiet.
    rewrite haveValidToken_steps. simpl. rewrite decide_False by assumption.
    eexists. split; [reflexivity|]. done.
Qed.

(** Only [o.httpClient.Do] moves the count of the requests that went out. *)
Lemma haveValidToken_posted (s : state) :
  posted (env (haveValidToken s).2) = posted (env s).
Proof. rewrite haveValidToken_steps. by destruct (decide _). Qed.

Lemma handover_posted (s : state) : posted (env (handover s).2) = posted (env s).
Proof.
  destruct s as [c w]. unfold handover. simpl.
  by destruct (racing w) as [[token expiry]|].
Qed.

Lemma requestNewToken_posted (s : state) :
  posted (env (requestNewToken s).2) =
    if built (endpoint (env s) (exchanges (env s))) then S (posted (env s))
    else posted (env s).
Proof.
  destruct s as [c w]. run.
  destruct (endpoint w (exchanges w)) as [cause|cause|cause|code raw [tokenResp|cause]];
    cbn; try reflexivity.
  destruct (decide (Error tokenResp ≠ "")); cbn; [reflexivity|].
  destruct (decide (code ≠ 200)); cbn; [reflexivity|].
  destruct (decide (AccessToken tokenResp = "")); reflexivity.
Qed.

(** A token that is returned is the one the client holds, and is not empty. *)
Lemma GetAccessToken_holds (s : state) (token : string) :
  (GetAccessToken s).1 = ok token →
  accessToken (client (GetAccessToken s).2) = token ∧ token ≠ "".
Proof.
  rewrite GetAccessToken_steps.
  pose proof (GatewayFacts.haveValidToken_spec s) as (Hc1 & _ & _ & _ & Hv1).
  destruct (haveValidToken s) as [valid1 s1]. simpl in *.
  destruct valid1.
  { simpl. intros [= <-]. split; [reflexivity|]. rewrite Hc1. by apply Hv1. }
  destruct (handover s1) as [[] s2].
  pose proof (GatewayFacts.haveValidToken_spec s2) as (Hc3 & _ & _ & _ & Hv3).
  destruct (haveValidToken s2) as [valid2 s3]. simpl in *.
  destruct valid2.
  { simpl. intros [= <-]. split; [reflexivity|]. rewrite Hc3. by apply Hv3. }
  intros Hok. destruct (requestNewToken_cases s3) as (_ & Hfail & Hgood).
  destruct (exchangeFails_dec (endpoint (env s3) (exchanges (env s3)))) as [Hf|Hg].
  - destruct (Hfail Hf) as [[e He] _]. rewrite He in Hok. discriminate.
  - destruct (Hgood Hg) as (code & raw & tokenResp & _ & Hne & Hr & Hstored & _).
    rewrite Hr in Hok. injection Hok as <-. done.
Qed.

End cache_facts.

(** X17. The fast path. With a token in the cache that the clock value
    read puts more than 30 seconds before its expiry, [GetAccessToken]
    returns that token and does nothing else: no token request, no change of
    the client, nothing logged; it reads the clock once. *)
Theorem GetAccessToken_cached {tables : UnicodeTables} (s : state) :
  accessToken (client s) ≠ "" →
  clock (env s) (ticks (env s)) + 30 * Second < expiresAt (client s) →
  let r := GetAccessToken s in
  r.1 = ok (accessToken (client s)) ∧
  client r.2 = client s ∧
  exchanges (env r.2) = exchanges (env s) ∧
  log (env r.2) = log (env s) ∧
  racing (env r.2) = racing (env s) ∧
  ticks (env r.2) = S (ticks (env s)) ∧
  posted (env r.2) = posted (env s).
Proof.
  intros Hne Hfresh. cbn zeta.
  rewrite GetAccessToken_steps, haveValidToken_steps.
  rewrite decide_True by assumption.
  rewrite bool_decide_eq_true_2 by assumption.
  destruct s as [c w]. done.
Qed.

Lemma GetAccessToken_cached_witness :
  (GetAccessToken (GetAccessToken (coldStart "3600" 3600)).2).1 = ok "tok" ∧
  exchanges (env (GetAccessToken (GetAccessToken (coldStart "3600" 3600)).2).2) = 1%nat.
Proof.
  assert (Hne : accessToken (client (GetAccessToken (coldStart "3600" 3600)).2) ≠ "")
    by (vm_compute; discriminate).
  assert (Hfresh :
    clock (env (GetAccessToken (coldStart "3600" 3600)).2)
          (ticks (env (GetAccessToken (coldStart "3600" 3600)).2)) + 30 * Second <
    expiresAt (client (GetAccessToken (coldStart "3600" 3600)).2))
    by (vm_compute; reflexivity).
  destruct (GetAccessToken_cached (GetAccessToken (coldStart "3600" 3600)).2 Hne Hfresh)
    as (Hr & _ & Hx & _).
  split; [exact Hr | exact Hx].
Defined.

(** X18. A token fetched twice within its validity. After a call that
    returned a token, a second call whose clock value is more than 30 seconds
    before the expiry returns the same token without a token request. *)
Theorem GetAccessToken_twice {tables : UnicodeTables} (s : state) (token : string) :
  (GetAccessToken s).1 = ok token →
  let s1 := (GetAccessToken s).2 in
  clock (env s1) (ticks (env s1)) + 30 * Second < expiresAt (client s1) →
  (GetAccessToken s1).1 = ok token ∧
  exchanges (env (GetAccessToken s1).2) = exchanges (env s1) ∧
  client (GetAccessToken s1).2 = client s1 ∧
  posted (env (GetAccessToken s1).2) = posted (env s1).
Proof.
  intros Hok s1 Hfresh. subst s1.
  destruct (GetAccessToken_holds s token Hok) as [Hheld Hne].
  set (s1 := (GetAccessToken s).2) in *.
  rewrite GetAccessToken_steps, haveValidToken_steps.
  rewrite decide_True by congruence.
  rewrite bool_decide_eq_true_2 by assumption.
  destruct s1 as [c w]. simpl in *. by subst token.
Qed.

Lemma GetAccessToken_twice_witness :
  (GetAccessToken (GetAccessToken (coldStart "3600" 3600)).2).1 = ok "tok".
Proof.
  refine (proj1 (GetAccessToken_twice (coldStart "3600" 3600) "tok" eq_refl _)).
  vm_compute. reflexivity.
Defined.

(** X19. A stale token is refreshed. When there is no token, or the token
    expires within 30 seconds of the clock values the two checks read, and no
    other goroutine has refreshed it, [GetAccessToken] runs [requestNewToken]
    once: one token request goes out, or none when the request cannot be
    built; it returns the new token when the exchange succeeds and the error
    when it fails, and a failed exchange leaves the old token in place. *)
Theorem GetAccessToken_refreshes {tables : UnicodeTables} (s : state) :
  racing (env s) = None →
  stale (client s) (clock (env s) (ticks (env s))) →
  stale (client s) (clock (env s) (S (ticks (env s)))) →
  let x := endpoint (env s) (exchanges (env s)) in
  let r := GetAccessToken s in
  exchanges (env r.2) = S (exchanges (env s)) ∧
  posted (env r.2) = (if built x then S (posted (env s)) else posted (env s)) ∧
  (exchangeFails x → (∃ e, r.1 = err e) ∧ client r.2 = client s) ∧
  (¬ exchangeFails x →
     ∃ code raw tokenResp,
       x = responds code raw (ok tokenResp) ∧
       r.1 = ok (AccessToken tokenResp) ∧
       accessToken (client r.2) = AccessToken tokenResp).
Proof.
  intros Hquiet Hstale1 Hstale2. cbn zeta.
  destruct (GetAccessToken_stale_steps s Hquiet Hstale1 Hstale2)
    as (s3 & -> & Hc & He & Hx & Hp).
  destruct (requestNewToken_cases s3) as (Hcount & Hfail & Hgood).
  pose proof (requestNewToken_posted s3) as Hposted.
  rewrite He, Hx, Hc, Hp in *.
  split; [exact Hcount|]. split; [exact Hposted|]. split; [exact Hfail|].
  intros Hg. destruct (Hgood Hg) as (code & raw & tokenResp & Hr & _ & Hok & Hst & _).
  by exists code, raw, tokenResp.
Qed.

Lemma GetAccessToken_refreshes_witness :
  posted (env (GetAccessToken endpointDown).2) = 1%nat ∧
  (∃ e, (GetAccessToken endpointDown).1 = err e) ∧
  client (GetAccessToken endpointDown).2 = client endpointDown.
Proof.
  assert (Hstale : ∀ now, stale (client endpointDown) now) by (intros now; by left).
  destruct (GetAccessToken_refreshes endpointDown eq_refl (Hstale _) (Hstale _))
    as (_ & Hposted & Hfail & _).
  split; [exact Hposted|]. apply Hfail. exact I.
Defined.

(** X20. The second check. When the token is stale at the first check but
    another goroutine has stored a token in the meantime that is good at the
    second check, that token is returned and no token request is started. *)
Theorem GetAccessToken_collapses {tables : UnicodeTables}
    (s : state) (token : string) (expiry : Z) :
  racing (env s) = Some (token, expiry) →
  token ≠ "" →
  stale (client s) (clock (env s) (ticks (env s))) →
  clock (env s) (ticks (env s)) + 30 * Second < expiry →
  clock (env s) (S (ticks (env s))) + 30 * Second < expiry →
  let r := GetAccessToken s in
  r.1 = ok token ∧
  exchanges (env r.2) = exchanges (env s) ∧
  accessToken (client r.2) = token ∧
  expiresAt (client r.2) = expiry ∧
  posted (env r.2) = posted (env s).
Proof.
  intros Hrace Hne Hstale Hgood1 Hgood2. cbn zeta.
  rewrite GetAccessToken_steps.
  pose proof (haveValidToken_stale s Hstale) as Hv1.
  rewrite haveValidToken_steps in Hv1 |- *.
  destruct s as [c w]. simpl in *.
  destruct (decide (accessToken c ≠ "")) as [Hc|Hc]; simpl in *.
  - rewrite Hv1. unfold handover. simpl. rewrite Hrace.
    unfold store. simpl. rewrite haveValidToken_steps. simpl.
    rewrite decide_True by assumption.
    rewrite bool_decide_eq_true_2 by assumption. done.
  - unfold handover. simpl. rewrite Hrace.
    unfold store. simpl. rewrite haveValidToken_steps. simpl.
    rewrite decide_True by assumption.
    rewrite bool_decide_eq_true_2 by assumption. done.
Qed.

Lemma GetAccessToken_collapses_witness :
  (GetAccessToken contended).1 = ok "tok-of-the-other" ∧
  exchanges (env (GetAccessToken contended).2) = 0%nat.
Proof.
  assert (Hne : "tok-of-the-other" ≠ "") by discriminate.
  assert (Hstale : stale (client contended) (clock (env contended) (ticks (env contended))))
    by (by left).
  destruct (GetAccessToken_collapses contended "tok-of-the-other" (1700003600 * Second)
              eq_refl Hne Hstale eq_refl eq_refl) as (Hr & Hx & _).
  split; [exact Hr | exact Hx].
Defined.

(** X21. An error of [GetAccessToken] comes from the one run of
    [requestNewToken] it made, whose token request failed: the request went
    out once, or not at all when it could not be built. With no other
    goroutine storing a token in the meantime, the client is left as it was,
    its old token included. *)
Theorem GetAccessToken_error {tables : UnicodeTables} (s : state) (e : tokenError) :
  (GetAccessToken s).1 = err e →
  let x := endpoint (env s) (exchanges (env s)) in
  let r := GetAccessToken s in
  exchanges (env r.2) = S (exchanges (env s)) ∧
  exchangeFails x ∧
  posted (env r.2) = (if built x then S (posted (env s)) else posted (env s)) ∧
  (racing (env s) = None → client r.2 = client s).
Proof.
  cbn zeta. rewrite GetAccessToken_steps.
  pose proof (GatewayFacts.haveValidToken_spec s) as (Hc1 & He1 & Hx1 & Hr1 & _).
  pose proof (haveValidToken_posted s) as Hp1.
  destruct (haveValidToken s) as [valid1 s1]. simpl in *.
  destruct valid1; [discriminate|].
  pose proof (GatewayFacts.handover_spec s1) as (He2 & Hx2).
  pose proof (handover_posted s1) as Hp2.
  assert (racing (env s1) = None → client (handover s1).2 = client s1) as Hc2.
  { destruct s1 as [c1 w1]. unfold handover. simpl. by intros ->. }
  destruct (handover s1) as [[] s2]. simpl in *.
  pose proof (GatewayFacts.haveValidToken_spec s2) as (Hc3 & He3 & Hx3 & _ & _).
  pose proof (haveValidToken_posted s2) as Hp3.
  destruct (haveValidToken s2) as [valid2 s3]. simpl in *.
  destruct valid2; [discriminate|].
  intros Herr. destruct (requestNewToken_cases s3) as (Hcount & Hfail & Hgood).
  pose proof (requestNewToken_posted s3) as Hposted.
  assert (endpoint (env s3) (exchanges (env s3)) = endpoint (env s) (exchanges (env s)))
    as Hsame by congruence.
  rewrite Hsame in Hfail, Hgood, Hposted.
  destruct (exchangeFails_dec (endpoint (env s) (exchanges (env s)))) as [Hf|Hg].
  - split; [congruence|]. split; [exact Hf|]. split.
    + rewrite Hposted. by rewrite Hp3, Hp2, Hp1.
    + intros Hquiet. destruct (Hfail Hf) as [_ Hkept].
      rewrite Hkept, Hc3, Hc2, Hc1 by congruence. reflexivity.
  - destruct (Hgood Hg) as (code & raw & tokenResp & _ & _ & Hok & _).
    rewrite Hok in Herr. discriminate.
Qed.

Lemma GetAccessToken_error_witness :
  posted (env (GetAccessToken endpointDown).2) = 1%nat ∧
  posted (env (GetAccessToken unbuildable).2) = 0%nat ∧
  client (GetAccessToken endpointDown).2 = client endpointDown.
Proof.
  destruct (GetAccessToken_error endpointDown (requestError "connection refused") eq_refl)
    as (_ & _ & Hposted & Hkept).
  destruct (GetAccessToken_error unbuildable
              (createRequestError "missing protocol scheme") eq_refl)
    as (_ & _ & Hnone & _).
  split_and!; [exact Hposted | exact Hnone | exact (Hkept eq_refl)].
Defined.

(** X22. A client made by [NewOAuthClient] holds no token, so that its
    first [GetAccessToken], with no other goroutine ahead of it, never
    answers from the cache, whatever the clock says: it runs
    [requestNewToken], which hands one token request to the HTTP client
    unless the request cannot be built, and a token it returns is the one of
    that answer. *)
Theorem NewOAuthClient_first_call {tables : UnicodeTables}
    (tokenEndpoint clientID clientSecret scope : string) (w : world) :
  racing w = None →
  let s := {| client := NewOAuthClient tokenEndpoint clientID clientSecret scope;
              env := w |} in
  let x := endpoint w (exchanges w) in
  exchanges (env (GetAccessToken s).2) = S (exchanges w) ∧
  posted (env (GetAccessToken s).2) = (if built x then S (posted w) else posted w) ∧
  (∀ token, (GetAccessToken s).1 = ok token →
     ∃ code raw tokenResp,
       x = responds code raw (ok tokenResp) ∧
       token = AccessToken tokenResp).
Proof.
  intros Hquiet s x. subst x.
  assert (∀ now, stale (client s) now) as Hstale by (intros now; by left).
  destruct (GetAccessToken_stale_steps s Hquiet (Hstale _) (Hstale _))
    as (s3 & Hrun & Hc & He & Hx & Hp).
  destruct (requestNewToken_cases s3) as (Hcount & Hfail & Hgood).
  pose proof (requestNewToken_posted s3) as Hposted.
  rewrite Hrun. rewrite He, Hx, Hp in *. simpl in *.
  split; [exact Hcount|]. split; [exact Hposted|].
  intros token Hok.
  destruct (exchangeFails_dec (endpoint w (exchanges w))) as [Hf|Hg].
  - destruct (Hfail Hf) as [[e Herr] _]. rewrite Herr in Hok. discriminate.
  - destruct (Hgood Hg) as (code & raw & tokenResp & Hr & _ & Hok' & _).
    rewrite Hok' in Hok. injection Hok as <-. by exists code, raw, tokenResp.
Qed.

Lemma NewOAuthClient_first_call_witness :
  posted (env (GetAccessToken endpointDown).2) = 1%nat.
Proof.
  exact (proj1 (proj2 (NewOAuthClient_first_call "https://idp.example.com/oauth2/token"
                         "song-writer" "hunter2" "" (env endpointDown) eq_refl))).
Defined.

End CacheFacts.

(** ** The transport that injects the token *)

Module TransportFacts.
Import Transport.

(** X23. Without a token nothing is forwarded: when [GetAccessToken]
    fails, [RoundTrip] returns its error, wrapped, and the base transport is
    not called. *)
Theorem RoundTrip_without_token {tables : UnicodeTables}
    (req : request) (t : state) (e : Gateway.tokenError) :
  (Gateway.GetAccessToken (oauth t)).1 = err e →
  (RoundTrip req t).1 = err (authenticationError e) ∧
  forwarded (RoundTrip req t).2 = forwarded t.
Proof.
  unfold RoundTrip. destruct (Gateway.GetAccessToken (oauth t)) as [got o].
  simpl. intros ->. done.
Qed.

Lemma RoundTrip_without_token_witness :
  (RoundTrip gatewayCall (transportOver endpointDown)).1 =
    err (authenticationError (Gateway.requestError "connection refused")) ∧
  forwarded (RoundTrip gatewayCall (transportOver endpointDown)).2 = [].
Proof.
  apply (RoundTrip_without_token gatewayCall (transportOver endpointDown)).
  reflexivity.
Defined.

(** X24. With a token exactly one request is forwarded, the request of
    the caller with ["Bearer "] and the token as its only [Authorization]
    value, whatever the caller had put there; its other headers, its method,
    its URL and its body are those of the caller, and the answer of the base
    transport is the answer of [RoundTrip]. *)
Theorem RoundTrip_injects {tables : UnicodeTables}
    (req : request) (t : state) (token : string) :
  (Gateway.GetAccessToken (oauth t)).1 = ok token →
  let r := RoundTrip req t in
  ∃ newReq,
    forwarded r.2 = forwarded t ++ [newReq] ∧
    Header newReq !! "Authorization" = Some ["Bearer " +:+ token] ∧
    (∀ name, name ≠ "Authorization" → Header newReq !! name = Header req !! name) ∧
    (Method newReq, URL newReq, Body newReq) = (Method req, URL req, Body req) ∧
    r.1 = match baseTransport t newReq with
          | ok resp => ok resp
          | err cause => err (baseError cause)
          end.
Proof.
  unfold RoundTrip. destruct (Gateway.GetAccessToken (oauth t)) as [got o].
  simpl. intros ->. simpl.
  exists (setAuthorization ("Bearer " +:+ token) req). split_and!; try done.
  - apply lookup_insert_eq.
  - intros name Hname. simpl. by rewrite lookup_insert_ne.
Qed.

Lemma RoundTrip_injects_witness :
  ∃ newReq,
    forwarded (RoundTrip gatewayCall (transportOver (coldStart "3600" 3600))).2 = [newReq] ∧
    Header newReq !! "Authorization" = Some ["Bearer tok"] ∧
    Header newReq !! "Content-Type" = Some ["application/json"].
Proof.
  destruct (RoundTrip_injects gatewayCall (transportOver (coldStart "3600" 3600))
              "tok" eq_refl) as (newReq & Hf & Ha & Hother & _).
  exists newReq. split_and!; [exact Hf | exact Ha |].
  rewrite Hother by discriminate. reflexivity.
Defined.

(** X25. The token stays out of the log. The record [RoundTrip] writes
    when it injects a token holds the method, the URL and, for the
    authorization, the marker of a bearer token in place of the value, for any
    [strings.ToLower] that lowers the ["Bearer "] in front of the token. *)
Theorem RoundTrip_log_redacted {tables : UnicodeTables}
    (req : request) (t : state) (token : string) :
  (Gateway.GetAccessToken (oauth t)).1 = ok token →
  HasPrefix (ToLower ("Bearer " +:+ token)) "bearer " = true →
  Gateway.log (Gateway.env (oauth (RoundTrip req t).2)) =
    Gateway.log (Gateway.env (Gateway.GetAccessToken (oauth t)).2) ++
    [ {| Gateway.level := "debug";
         Gateway.fields := [("method", Gateway.Str (Method req));
                            ("url", Gateway.Str (URL req));
                            ("authorization", Gateway.Str "[REDACTED_BEARER_TOKEN]")];
         Gateway.msg := "OAuth transport injecting token" |} ].
Proof.
  unfold RoundTrip. destruct (Gateway.GetAccessToken (oauth t)) as [got o].
  simpl. intros -> Hlower. simpl.
  unfold Gateway.sanitizeForLogging.
  by rewrite (Contains_prefix _ _ Hlower).
Qed.

Lemma RoundTrip_log_redacted_witness :
  last (Gateway.log (Gateway.env (oauth
          (RoundTrip gatewayCall (transportOver (coldStart "3600" 3600))).2))) =
    Some {| Gateway.level := "debug";
            Gateway.fields :=
              [("method", Gateway.Str "POST");
               ("url", Gateway.Str "https://gateway.example.com/chat/completions");
               ("authorization", Gateway.Str "[REDACTED_BEARER_TOKEN]")];
            Gateway.msg := "OAuth transport injecting token" |}.
Proof.
  assert (HasPrefix (ToLower ("Bearer " +:+ "tok")) "bearer " = true) as Hlower
    by reflexivity.
  rewrite (RoundTrip_log_redacted gatewayCall (transportOver (coldStart "3600" 3600))
             "tok" eq_refl Hlower).
  apply last_snoc.
Defined.

End TransportFacts.
